(** * Voice-Instrument-Separation: a shallow embedding of the app's logic

    The application is a React Native shell: four screens (Record, Upload,
    Editor, Export), two utility modules ([utils/fileSystem],
    [utils/audioProcessing]) and two presentational components
    ([AudioWaveform], [Slider]).  The TypeScript functions are embedded as
    Rocq functions in a state-and-exception monad over a model of the host
    (file system, clock, audio player, document picker, console, alerts).

    The numbers of the [Slider], whose arithmetic and rounding the claims
    are about, are binary64 floating-point numbers ([float]).  Elsewhere
    numbers are only stored, compared or scaled, and are idealised as real
    numbers ([R]).  Asynchronous functions are run to completion, one after
    the other, the way a chain of [await]s sequences them. *)

From Stdlib Require Import Reals Lra Lia ZArith List Ascii Floats.
From stdpp Require Import base strings gmap pretty.

Local Open Scope string_scope.

(* A decimal literal denotes the nearest binary64 number, as in JavaScript. *)
#[local] Set Warnings "-inexact-float".

(** ** Outcomes of a JavaScript computation: a value or a thrown error *)

Inductive JsError : Type :=
| HostError (message : string)   (* a promise of the host SDK rejected *)
| TypeError (message : string).  (* property access on [undefined] *)

Inductive outcome (A : Type) : Type :=
| Return (a : A)
| Throw (e : JsError).
Arguments Return {A} a.
Arguments Throw {A} e.

(** ** The effect monad: state passing with exceptions.  The state survives
    a throw, as the side effects of JavaScript code do. *)

Definition M (S A : Type) : Type := S -> outcome A * S.

Definition ret {S A} (a : A) : M S A := fun s => (Return a, s).

Definition throw {S A} (e : JsError) : M S A := fun s => (Throw e, s).

Definition bind {S A B} (m : M S A) (k : A -> M S B) : M S B :=
  fun s => match m s with
           | (Return a, s') => k a s'
           | (Throw e, s') => (Throw e, s')
           end.

(** [try { body } catch (err) { handler }] *)
Definition try_catch {S A} (body : M S A) (handler : JsError -> M S A) : M S A :=
  fun s => match body s with
           | (Return a, s') => (Return a, s')
           | (Throw e, s') => handler e s'
           end.

(** [try { body } catch (err) { handler } finally { fin }]: [fin] runs on
    every exit; a throw inside [fin] replaces the pending outcome. *)
Definition try_catch_finally {S A} (body : M S A) (handler : JsError -> M S A)
    (fin : M S unit) : M S A :=
  fun s => match try_catch body handler s with
           | (o, s') => match fin s' with
                        | (Return _, s'') => (o, s'')
                        | (Throw e, s'') => (Throw e, s'')
                        end
           end.

Definition get {S} : M S S := fun s => (Return s, s).
Definition gets {S A} (f : S -> A) : M S A := fun s => (Return (f s), s).
Definition modify {S} (f : S -> S) : M S unit := fun s => (Return tt, f s).

(** A computation on the second component of a pair of states. *)
Definition liftW {S W A} (m : M W A) : M (S * W) A :=
  fun sw => match m (snd sw) with (o, w') => (o, (fst sw, w')) end.

(** A state update on the first component of a pair of states. *)
Definition setState {S W} (f : S -> S) : M (S * W) unit :=
  fun sw => (Return tt, (f (fst sw), snd sw)).

(** What a run from state [s] guarantees: [Q] of the value and final state
    when it returns, [E] of the error and final state when it throws. *)
Definition wp {S A} (m : M S A) (Q : A -> S -> Prop) (E : JsError -> S -> Prop)
    (s : S) : Prop :=
  match m s with
  | (Return a, s') => Q a s'
  | (Throw e, s') => E e s'
  end.

Declare Scope js_scope.
Delimit Scope js_scope with js.
Notation "x <- c1 ;; c2" := (bind c1 (fun x => c2))
  (at level 100, c1 at next level, right associativity) : js_scope.
Notation "c1 ;; c2" := (bind c1 (fun _ => c2))
  (at level 100, right associativity) : js_scope.
Local Open Scope js_scope.

(** JavaScript truthiness of an optional string: [undefined], [null] and the
    empty string are falsy. *)
Definition truthy (s : option string) : bool :=
  match s with
  | Some (String _ _) => true
  | _ => false
  end.

(** [a || b] on optional strings with a string default. *)
Definition or_else (s : option string) (d : string) : string :=
  match s with
  | Some (String c r) => String c r
  | _ => d
  end.

(** ** The host: platform, file system, clock, audio player, picker *)

Inductive OS : Type := ios | android | windows | macos | web.

Definition is_web (o : OS) : bool :=
  match o with web => true | _ => false end.

Definition bytes : Type := list Byte.byte.

(** The calls into the host that a run makes, in order. *)
Inductive Event : Type :=
| SetTimeout (ms : N)                  (* a timer of [ms], awaited *)
| ConsoleError (msg : string)
| AlertShown (title message : string)
| GetInfoAsync (path : string)
| DeleteAsync (path : string)
| CopyAsync (from to : string)
| MakeDirectoryAsync (path : string)
| UnloadAsync (sound : nat)
| StopAsync (sound : nat)
| SetPositionAsync (sound : nat) (millis : R)
| CreateAsync (uri : option string) (sound : nat)
| GetStatusAsync (sound : nat)
| GetDocumentAsync.

Record SoundStatus : Type := mkSoundStatus {
  isLoaded : bool;
  isPlaying : bool;
  positionMillis : R;
  durationMillis : option N;
  volume : R
}.

Record Asset : Type := mkAsset {
  asset_uri : string;
  asset_name : string;
  asset_size : option N
}.

Record DocumentPickerResult : Type := mkPick {
  canceled : bool;
  assets : list Asset
}.

Record World : Type := mkWorld {
  os : OS;                               (* Platform.OS *)
  cacheDirectory : string;               (* FileSystem.cacheDirectory *)
  files : gmap string bytes;             (* resources addressable by URI *)
  dirs : gset string;                    (* directories *)
  now : N;                               (* Date.now(), in ms *)
  faults : list nat;                     (* host failures still to come *)
  trace : list Event;                    (* observable events so far *)
  decodeDuration : bytes -> option N;    (* the player's decoder *)
  sounds : gmap nat SoundStatus;         (* Audio.Sound objects *)
  nextSound : nat;
  picker : list DocumentPickerResult     (* what the user will pick *)
}.

Definition set_files (f : gmap string bytes -> gmap string bytes) (w : World) :=
  mkWorld (os w) (cacheDirectory w) (f (files w)) (dirs w) (now w) (faults w)
    (trace w) (decodeDuration w) (sounds w) (nextSound w) (picker w).

Definition set_dirs (f : gset string -> gset string) (w : World) :=
  mkWorld (os w) (cacheDirectory w) (files w) (f (dirs w)) (now w) (faults w)
    (trace w) (decodeDuration w) (sounds w) (nextSound w) (picker w).

Definition set_now (f : N -> N) (w : World) :=
  mkWorld (os w) (cacheDirectory w) (files w) (dirs w) (f (now w)) (faults w)
    (trace w) (decodeDuration w) (sounds w) (nextSound w) (picker w).

Definition set_faults (f : list nat -> list nat) (w : World) :=
  mkWorld (os w) (cacheDirectory w) (files w) (dirs w) (now w) (f (faults w))
    (trace w) (decodeDuration w) (sounds w) (nextSound w) (picker w).

Definition set_trace (f : list Event -> list Event) (w : World) :=
  mkWorld (os w) (cacheDirectory w) (files w) (dirs w) (now w) (faults w)
    (f (trace w)) (decodeDuration w) (sounds w) (nextSound w) (picker w).

Definition set_sounds (f : gmap nat SoundStatus -> gmap nat SoundStatus)
    (w : World) :=
  mkWorld (os w) (cacheDirectory w) (files w) (dirs w) (now w) (faults w)
    (trace w) (decodeDuration w) (f (sounds w)) (nextSound w) (picker w).

Definition set_nextSound (f : nat -> nat) (w : World) :=
  mkWorld (os w) (cacheDirectory w) (files w) (dirs w) (now w) (faults w)
    (trace w) (decodeDuration w) (sounds w) (f (nextSound w)) (picker w).

Definition set_picker
    (f : list DocumentPickerResult -> list DocumentPickerResult) (w : World) :=
  mkWorld (os w) (cacheDirectory w) (files w) (dirs w) (now w) (faults w)
    (trace w) (decodeDuration w) (sounds w) (nextSound w) (f (picker w)).

(** The alerts among the events of a run, as (title, message). *)
Fixpoint alerts_of (t : list Event) : list (string * string) :=
  match t with
  | [] => []
  | AlertShown title message :: t' => (title, message) :: alerts_of t'
  | _ :: t' => alerts_of t'
  end.

(** *** Primitive host operations *)

Definition emit (e : Event) : M World unit :=
  modify (set_trace (fun t => (t ++ [e])%list)).

(** Any promise of the host SDK may reject.  [faults] schedules the
    rejections: an entry [n] lets [n] host calls through and rejects the next
    one; the empty schedule is the host that never fails on its own. *)
Definition hostcall : M World unit :=
  fun w => match faults w with
           | [] => (Return tt, w)
           | O :: fs => (Throw (HostError "host call rejected"),
                         set_faults (fun _ => fs) w)
           | S n :: fs => (Return tt, set_faults (fun _ => n :: fs) w)
           end.

(** [await new Promise(resolve => setTimeout(resolve, ms))] *)
Definition sleep (ms : N) : M World unit :=
  modify (set_now (fun t => (t + ms)%N)) ;; emit (SetTimeout ms).

Definition Date_now : M World N := gets now.

Definition Platform_OS : M World OS := gets os.

Definition console_error (msg : string) : M World unit :=
  emit (ConsoleError msg).

(** [Alert.alert(title, message)] *)
Definition Alert_alert (title message : string) : M World unit :=
  emit (AlertShown title message).

Module FileSystem.

Record FileInfo : Type := mkFileInfo { exists_ : bool }.

(** [FileSystem.getInfoAsync(path)]: whether a file or a directory is
    there. *)
Definition getInfoAsync (path : string) : M World FileInfo :=
  hostcall ;;
  emit (GetInfoAsync path) ;;
  w <- get ;;
  ret (mkFileInfo (bool_decide (is_Some (files w !! path))
                   || bool_decide (path ∈ dirs w))).

(** Whether a path ends with a slash. *)
Fixpoint ends_with_slash (path : string) : bool :=
  match path with
  | "" => false
  | String c "" => Ascii.eqb c "/"
  | String _ rest => ends_with_slash rest
  end.

(** [under dir q]: the path [q] lies under the directory [dir], that is,
    [q] goes on after [dir] and its slash. *)
Definition under (dir q : string) : bool :=
  String.prefix (if ends_with_slash dir then dir else dir +:+ "/") q.

(** [kept d path q]: what is at [q] stays when [path] is deleted on a host
    with the directories [d].  A file goes alone; a directory goes with all
    that lies under it. *)
Definition kept (d : gset string) (path q : string) : bool :=
  negb (bool_decide (q = path))
  && negb (bool_decide (path ∈ d) && under path q).

(** [FileSystem.deleteAsync(path)]: rejects when nothing is there; deletes
    a file, or a directory with its contents. *)
Definition deleteAsync (path : string) : M World unit :=
  hostcall ;;
  emit (DeleteAsync path) ;;
  w <- get ;;
  if bool_decide (is_Some (files w !! path)) || bool_decide (path ∈ dirs w)
  then modify (set_files (filter (fun entry => kept (dirs w) path (fst entry) = true))) ;;
       modify (set_dirs (filter (fun q => kept (dirs w) path q = true)))
  else throw (HostError "file does not exist").

(** [FileSystem.copyAsync({from, to})]: rejects when the source is not a
    file; otherwise the destination holds the content of the source. *)
Definition copyAsync (from to : string) : M World unit :=
  hostcall ;;
  emit (CopyAsync from to) ;;
  w <- get ;;
  match files w !! from with
  | Some content => modify (set_files (insert to content))
  | None => throw (HostError "source file does not exist")
  end.

(** [FileSystem.makeDirectoryAsync(path, { intermediates: true })] *)
Definition makeDirectoryAsync (path : string) : M World unit :=
  hostcall ;;
  emit (MakeDirectoryAsync path) ;;
  modify (set_dirs (fun d => d ∪ {[ path ]})).

End FileSystem.

Module Audio.

Definition unloaded : SoundStatus := mkSoundStatus false false 0 None 1.

(** [sound.getStatusAsync()] *)
Definition getStatusAsync (sound : nat) : M World SoundStatus :=
  hostcall ;;
  emit (GetStatusAsync sound) ;;
  w <- get ;;
  ret (default unloaded (sounds w !! sound)).

(** An operation that needs a loaded sound rejects on an unloaded one. *)
Definition on_loaded (sound : nat) (f : SoundStatus -> SoundStatus)
    : M World unit :=
  w <- get ;;
  match sounds w !! sound with
  | Some st =>
      if isLoaded st
      then modify (set_sounds (insert sound (f st)))
      else throw (HostError "sound is not loaded")
  | None => throw (HostError "sound is not loaded")
  end.

(** [sound.stopAsync()] *)
Definition stopAsync (sound : nat) : M World unit :=
  hostcall ;;
  emit (StopAsync sound) ;;
  on_loaded sound (fun st =>
    mkSoundStatus true false 0 (durationMillis st) (volume st)).

(** [sound.setPositionAsync(millis)] *)
Definition setPositionAsync (sound : nat) (millis : R) : M World unit :=
  hostcall ;;
  emit (SetPositionAsync sound millis) ;;
  on_loaded sound (fun st =>
    mkSoundStatus true (isPlaying st) millis (durationMillis st) (volume st)).

(** [sound.unloadAsync()] *)
Definition unloadAsync (sound : nat) : M World unit :=
  hostcall ;;
  emit (UnloadAsync sound) ;;
  modify (set_sounds (insert sound unloaded)).

(** [Audio.Sound.createAsync({ uri }, { shouldPlay: false, volume }, cb)]:
    rejects when there is nothing at [uri] or the player cannot decode it.
    The status callback [cb] is called by the host later on; those calls
    are not part of the run that creates the sound. *)
Definition createAsync (uri : option string) (vol : R) : M World nat :=
  hostcall ;;
  w <- get ;;
  let sound := nextSound w in
  emit (CreateAsync uri sound) ;;
  match uri with
  | None => throw (HostError "no source")
  | Some u =>
      match files w !! u with
      | None => throw (HostError "cannot load source")
      | Some content =>
          match decodeDuration w content with
          | None => throw (HostError "cannot decode source")
          | Some d =>
              modify (set_nextSound S) ;;
              modify (set_sounds
                        (insert sound (mkSoundStatus true false 0 (Some d) vol))) ;;
              ret sound
          end
      end
  end.

End Audio.

Module DocumentPicker.

(** [DocumentPicker.getDocumentAsync({ type: ['audio/*'],
    copyToCacheDirectory: true })]: the next choice of the user. *)
Definition getDocumentAsync : M World DocumentPickerResult :=
  hostcall ;;
  emit GetDocumentAsync ;;
  w <- get ;;
  match picker w with
  | [] => throw (HostError "document picker failed")
  | result :: rest => modify (set_picker (fun _ => rest)) ;; ret result
  end.

End DocumentPicker.

(** ** utils/fileSystem.ts *)

Module FileSystemUtils.

(** Helper to save audio to cache directory. *)
Definition saveAudioToCache (uri filename : string) : M World string :=
  platform <- Platform_OS ;;
  if is_web platform then
    ret uri
  else
    cacheDir <- gets cacheDirectory ;;
    let destination := cacheDir +:+ filename in
    try_catch
      (info <- FileSystem.getInfoAsync destination ;;
       (if FileSystem.exists_ info
        then FileSystem.deleteAsync destination
        else ret tt) ;;
       FileSystem.copyAsync uri destination ;;
       ret destination)
      (fun err =>
         console_error "Error saving file to cache:" ;;
         throw err).

(** Helper to create a temporary directory for processing. *)
Definition createTempDirectory : M World string :=
  platform <- Platform_OS ;;
  if is_web platform then
    ret ""
  else
    cacheDir <- gets cacheDirectory ;;
    t <- Date_now ;;
    let tempDir := cacheDir +:+ "temp_" +:+ pretty t +:+ "/" in
    try_catch
      (dirInfo <- FileSystem.getInfoAsync tempDir ;;
       (if negb (FileSystem.exists_ dirInfo)
        then FileSystem.makeDirectoryAsync tempDir
        else ret tt) ;;
       ret tempDir)
      (fun err =>
         console_error "Error creating temp directory:" ;;
         throw err).

(** Helper to clean up temporary files.  The loop sits inside one [try]:
    the first failure ends it. *)
Fixpoint cleanupTempFiles_loop (files : list string) : M World unit :=
  match files with
  | [] => ret tt
  | file :: rest =>
      info <- FileSystem.getInfoAsync file ;;
      (if FileSystem.exists_ info
       then FileSystem.deleteAsync file
       else ret tt) ;;
      cleanupTempFiles_loop rest
  end.

Definition cleanupTempFiles (files : list string) : M World unit :=
  platform <- Platform_OS ;;
  if is_web platform then
    ret tt
  else
    try_catch
      (cleanupTempFiles_loop files)
      (fun err => console_error "Error cleaning up temp files:").

End FileSystemUtils.

(** ** utils/audioProcessing.ts *)

Module ProcessingResult.
Record t : Type := mk {
  success : bool;
  vocalTrack : option string;
  instrumentalTrack : option string;
  error : option string
}.
End ProcessingResult.

Module MergeResult.
Record t : Type := mk {
  success : bool;
  outputUri : option string;
  error : option string
}.
End MergeResult.

Module AudioProcessing.
Import FileSystemUtils.

(** The [try] block of [webProcessAudio]: simulated output URIs, nothing is
    created. *)
Definition webProcessAudio_try (audioUri : string)
    : M World ProcessingResult.t :=
  sleep 3000 ;;
  let vocalTrack := audioUri +:+ "_vocals" in
  let instrumentalTrack := audioUri +:+ "_instrumental" in
  ret (ProcessingResult.mk true (Some vocalTrack)
         (Some instrumentalTrack) None).

(** Web-specific function. *)
Definition webProcessAudio (audioUri : string) : M World ProcessingResult.t :=
  try_catch
    (webProcessAudio_try audioUri)
    (fun error =>
       console_error "Web audio processing error:" ;;
       ret (ProcessingResult.mk false None None
              (Some "Failed to process audio with WebAssembly."))).

(** The [try] block of [nativeProcessAudio]: the original file is copied
    twice. *)
Definition nativeProcessAudio_try (audioUri : string)
    : M World ProcessingResult.t :=
  sleep 3000 ;;
  tempDir <- createTempDirectory ;;
  let vocalTrack := tempDir +:+ "vocals.mp3" in
  let instrumentalTrack := tempDir +:+ "instrumental.mp3" in
  FileSystem.copyAsync audioUri vocalTrack ;;
  FileSystem.copyAsync audioUri instrumentalTrack ;;
  ret (ProcessingResult.mk true (Some vocalTrack)
         (Some instrumentalTrack) None).

(** Native-specific function. *)
Definition nativeProcessAudio (audioUri : string)
    : M World ProcessingResult.t :=
  try_catch
    (nativeProcessAudio_try audioUri)
    (fun error =>
       console_error "Native audio processing error:" ;;
       ret (ProcessingResult.mk false None None
              (Some "Failed to process audio on device."))).

(** Main processing function. *)
Definition processingAudio (audioUri : string) : M World ProcessingResult.t :=
  platform <- Platform_OS ;;
  if is_web platform
  then webProcessAudio audioUri
  else nativeProcessAudio audioUri.

(** The [try] block of [webMergeAudio]. *)
Definition webMergeAudio_try (vocalUri instrumentalUri : string)
    (vocalVolume instrumentalVolume : R) : M World MergeResult.t :=
  sleep 2000 ;;
  t <- Date_now ;;
  let outputUri := "mixed_" +:+ pretty t +:+ ".mp3" in
  ret (MergeResult.mk true (Some outputUri) None).

(** Web-specific function for merging audio. *)
Definition webMergeAudio (vocalUri instrumentalUri : string)
    (vocalVolume instrumentalVolume : R) : M World MergeResult.t :=
  try_catch
    (webMergeAudio_try vocalUri instrumentalUri vocalVolume instrumentalVolume)
    (fun error =>
       console_error "Web audio merging error:" ;;
       ret (MergeResult.mk false None
              (Some "Failed to merge audio tracks in browser."))).

(** The [try] block of [nativeMergeAudio]. *)
Definition nativeMergeAudio_try (vocalUri instrumentalUri : string)
    (vocalVolume instrumentalVolume : R) : M World MergeResult.t :=
  sleep 2000 ;;
  cacheDir <- gets cacheDirectory ;;
  t <- Date_now ;;
  let outputUri := cacheDir +:+ "mixed_" +:+ pretty t +:+ ".mp3" in
  FileSystem.copyAsync vocalUri outputUri ;;
  ret (MergeResult.mk true (Some outputUri) None).

(** Native-specific function for merging audio. *)
Definition nativeMergeAudio (vocalUri instrumentalUri : string)
    (vocalVolume instrumentalVolume : R) : M World MergeResult.t :=
  try_catch
    (nativeMergeAudio_try vocalUri instrumentalUri vocalVolume
       instrumentalVolume)
    (fun error =>
       console_error "Native audio merging error:" ;;
       ret (MergeResult.mk false None
              (Some "Failed to merge audio tracks on device."))).

(** Main merging function. *)
Definition mergeAudioTracks (vocalUri instrumentalUri : string)
    (vocalVolume instrumentalVolume : R) : M World MergeResult.t :=
  platform <- Platform_OS ;;
  if is_web platform
  then webMergeAudio vocalUri instrumentalUri vocalVolume instrumentalVolume
  else nativeMergeAudio vocalUri instrumentalUri vocalVolume
         instrumentalVolume.

End AudioProcessing.

(** ** app/(tabs)/editor.tsx

    A React function component: the functions of one render close over that
    render's state ([st], read only) and queue updates of the state of the
    next render (the first component of the monad's state). *)

Module EditorScreen.

Inductive PlaybackMode : Type := original | processed.

Record State : Type := mkState {
  isProcessing : bool;
  isProcessed : bool;
  vocalTrack : option string;
  instrumentalTrack : option string;
  vocalVolume : R;
  instrumentalVolume : R;
  originalSound : option nat;
  vocalSound : option nat;
  instrumentalSound : option nat;
  isPlaying : bool;
  playbackMode : PlaybackMode;
  duration : R;
  position : R
}.

(** The defaults of the [useState] calls. *)
Definition initialState : State :=
  mkState false false None None 1 1 None None None false original 0 0.

Definition setIsProcessing (v : bool) : M (State * World) unit :=
  setState (fun s => mkState v (isProcessed s) (vocalTrack s)
    (instrumentalTrack s) (vocalVolume s) (instrumentalVolume s)
    (originalSound s) (vocalSound s) (instrumentalSound s) (isPlaying s)
    (playbackMode s) (duration s) (position s)).

Definition setIsProcessed (v : bool) : M (State * World) unit :=
  setState (fun s => mkState (isProcessing s) v (vocalTrack s)
    (instrumentalTrack s) (vocalVolume s) (instrumentalVolume s)
    (originalSound s) (vocalSound s) (instrumentalSound s) (isPlaying s)
    (playbackMode s) (duration s) (position s)).

Definition setVocalTrack (v : option string) : M (State * World) unit :=
  setState (fun s => mkState (isProcessing s) (isProcessed s) v
    (instrumentalTrack s) (vocalVolume s) (instrumentalVolume s)
    (originalSound s) (vocalSound s) (instrumentalSound s) (isPlaying s)
    (playbackMode s) (duration s) (position s)).

Definition setInstrumentalTrack (v : option string) : M (State * World) unit :=
  setState (fun s => mkState (isProcessing s) (isProcessed s) (vocalTrack s)
    v (vocalVolume s) (instrumentalVolume s)
    (originalSound s) (vocalSound s) (instrumentalSound s) (isPlaying s)
    (playbackMode s) (duration s) (position s)).

Definition setVocalSound (v : option nat) : M (State * World) unit :=
  setState (fun s => mkState (isProcessing s) (isProcessed s) (vocalTrack s)
    (instrumentalTrack s) (vocalVolume s) (instrumentalVolume s)
    (originalSound s) v (instrumentalSound s) (isPlaying s)
    (playbackMode s) (duration s) (position s)).

Definition setInstrumentalSound (v : option nat) : M (State * World) unit :=
  setState (fun s => mkState (isProcessing s) (isProcessed s) (vocalTrack s)
    (instrumentalTrack s) (vocalVolume s) (instrumentalVolume s)
    (originalSound s) (vocalSound s) v (isPlaying s)
    (playbackMode s) (duration s) (position s)).

Definition setIsPlaying (v : bool) : M (State * World) unit :=
  setState (fun s => mkState (isProcessing s) (isProcessed s) (vocalTrack s)
    (instrumentalTrack s) (vocalVolume s) (instrumentalVolume s)
    (originalSound s) (vocalSound s) (instrumentalSound s) v
    (playbackMode s) (duration s) (position s)).

Definition setPlaybackMode (v : PlaybackMode) : M (State * World) unit :=
  setState (fun s => mkState (isProcessing s) (isProcessed s) (vocalTrack s)
    (instrumentalTrack s) (vocalVolume s) (instrumentalVolume s)
    (originalSound s) (vocalSound s) (instrumentalSound s) (isPlaying s)
    v (duration s) (position s)).

Definition setPosition (v : R) : M (State * World) unit :=
  setState (fun s => mkState (isProcessing s) (isProcessed s) (vocalTrack s)
    (instrumentalTrack s) (vocalVolume s) (instrumentalVolume s)
    (originalSound s) (vocalSound s) (instrumentalSound s) (isPlaying s)
    (playbackMode s) (duration s) v).

(** [if (sound) { try { await sound.stopAsync();
                        await sound.setPositionAsync(0); }
                  catch (err) { console.error(msg, err); } }] *)
Definition stopSound (sound : option nat) (msg : string)
    : M (State * World) unit :=
  match sound with
  | Some s =>
      try_catch
        (liftW (Audio.stopAsync s) ;;
         liftW (Audio.setPositionAsync s 0))
        (fun err => liftW (console_error msg))
  | None => ret tt
  end.

Definition stopAllPlayback (st : State) : M (State * World) unit :=
  setIsPlaying false ;;
  stopSound (originalSound st) "Failed to stop original sound" ;;
  stopSound (vocalSound st) "Failed to stop vocal sound" ;;
  stopSound (instrumentalSound st) "Failed to stop instrumental sound" ;;
  setPosition 0.

Definition loadProcessedTracks (st : State)
    (vocalUri instrumentalUri : option string) : M (State * World) unit :=
  try_catch
    ((match vocalSound st with
      | Some s => liftW (Audio.unloadAsync s)
      | None => ret tt
      end) ;;
     newVocalSound <- liftW (Audio.createAsync vocalUri (vocalVolume st)) ;;
     setVocalSound (Some newVocalSound) ;;
     (match instrumentalSound st with
      | Some s => liftW (Audio.unloadAsync s)
      | None => ret tt
      end) ;;
     newInstrumentalSound <-
       liftW (Audio.createAsync instrumentalUri (instrumentalVolume st)) ;;
     setInstrumentalSound (Some newInstrumentalSound))
    (fun err => liftW (console_error "Failed to load processed tracks")).

Definition setOriginalSound (v : option nat) : M (State * World) unit :=
  setState (fun s => mkState (isProcessing s) (isProcessed s) (vocalTrack s)
    (instrumentalTrack s) (vocalVolume s) (instrumentalVolume s)
    v (vocalSound s) (instrumentalSound s) (isPlaying s)
    (playbackMode s) (duration s) (position s)).

Definition setDuration (v : R) : M (State * World) unit :=
  setState (fun s => mkState (isProcessing s) (isProcessed s) (vocalTrack s)
    (instrumentalTrack s) (vocalVolume s) (instrumentalVolume s)
    (originalSound s) (vocalSound s) (instrumentalSound s) (isPlaying s)
    (playbackMode s) v (position s)).

(** [status.durationMillis ? status.durationMillis / 1000 : 0] *)
Definition seconds_of (durationMillis : option N) : R :=
  match durationMillis with
  | Some d => if (d =? 0)%N then 0 else IZR (Z.of_N d) / 1000
  | None => 0
  end.

Definition loadOriginalAudio (st : State) (uri : string)
    : M (State * World) unit :=
  try_catch
    ((match originalSound st with
      | Some s => liftW (Audio.unloadAsync s)
      | None => ret tt
      end) ;;
     sound <- liftW (Audio.createAsync (Some uri) 1) ;;
     setOriginalSound (Some sound) ;;
     (* Get duration *)
     status <- liftW (Audio.getStatusAsync sound) ;;
     if isLoaded status
     then setDuration (seconds_of (durationMillis status))
     else ret tt)
    (fun err =>
       liftW (console_error "Failed to load original audio") ;;
       liftW (Alert_alert "Error" "Failed to load audio file.")).



Section WithProcessing.

(** [import { processingAudio } from '@/utils/audioProcessing'] *)
Variable processingAudio : string -> M World ProcessingResult.t.

(** [audioUri] is the route parameter of the screen. *)
Definition processAudio (audioUri : option string) (st : State)
    : M (State * World) unit :=
  match audioUri with
  | Some (String _ _ as uri) =>
      setIsProcessing true ;;
      try_catch_finally
        (stopAllPlayback st ;;
         result <- liftW (processingAudio uri) ;;
         if ProcessingResult.success result then
           setVocalTrack (ProcessingResult.vocalTrack result) ;;
           setInstrumentalTrack (ProcessingResult.instrumentalTrack result) ;;
           setIsProcessed true ;;
           loadProcessedTracks st (ProcessingResult.vocalTrack result)
             (ProcessingResult.instrumentalTrack result) ;;
           setPlaybackMode processed
         else
           liftW (Alert_alert "Processing Failed"
                    (or_else (ProcessingResult.error result)
                       "Failed to process audio.")))
        (fun err =>
           liftW (console_error "Failed to process audio") ;;
           liftW (Alert_alert "Error"
                    "Failed to process audio. Please try again."))
        (setIsProcessing false)
  | _ => ret tt                       (* if (!audioUri) return; *)
  end.

End WithProcessing.

End EditorScreen.

(** ** app/(tabs)/export.tsx *)

Module ExportScreen.

(** The route parameters of the screen. *)
Record Params : Type := mkParams {
  vocalTrack : option string;
  instrumentalTrack : option string;
  vocalVolume : option string;
  instrumentalVolume : option string
}.

Record State : Type := mkState {
  isMerging : bool;
  exportedUri : option string;
  exportName : string
}.

(** The defaults of the [useState] calls. *)
Definition initialState : State := mkState false None "mixed_audio.mp3".

Definition setIsMerging (v : bool) : M (State * World) unit :=
  setState (fun s => mkState v (exportedUri s) (exportName s)).

Definition setExportedUri (v : option string) : M (State * World) unit :=
  setState (fun s => mkState (isMerging s) v (exportName s)).

Section WithMerging.

(** [import { mergeAudioTracks } from '@/utils/audioProcessing'] *)
Variable mergeAudioTracks : string -> string -> R -> R -> M World MergeResult.t.

(** The builtin [parseFloat]. *)
Variable parseFloat : string -> R.

Definition hasRequiredParams (p : Params) : bool :=
  truthy (vocalTrack p) && truthy (instrumentalTrack p).

(** [volume ? parseFloat(volume) : 1] *)
Definition parseVolume (volume : option string) : R :=
  match volume with
  | Some (String _ _ as v) => parseFloat v
  | _ => 1
  end.

Definition vocalVol (p : Params) : R := parseVolume (vocalVolume p).
Definition instrumentalVol (p : Params) : R :=
  parseVolume (instrumentalVolume p).

Definition exportAudio (p : Params) : M (State * World) unit :=
  match vocalTrack p, instrumentalTrack p with
  | Some (String _ _ as vocal), Some (String _ _ as instrumental) =>
      setIsMerging true ;;
      try_catch_finally
        (result <- liftW (mergeAudioTracks vocal instrumental
                            (vocalVol p) (instrumentalVol p)) ;;
         if MergeResult.success result then
           setExportedUri (MergeResult.outputUri result) ;;
           liftW (Alert_alert "Success"
                    "Your audio has been successfully exported!")
         else
           liftW (Alert_alert "Export Failed"
                    (or_else (MergeResult.error result)
                       "Failed to export audio.")))
        (fun err =>
           liftW (console_error "Failed to export audio") ;;
           liftW (Alert_alert "Error"
                    "Failed to export audio. Please try again."))
        (setIsMerging false)
  | _, _ =>
      (* if (!vocalTrack || !instrumentalTrack) { alert; return; } *)
      liftW (Alert_alert "Error"
               "Missing audio tracks. Please go back to the editor.")
  end.

End WithMerging.

End ExportScreen.

(** ** app/(tabs)/upload.tsx *)

Module UploadScreen.
Import FileSystemUtils.

Record State : Type := mkState {
  audioUri : option string;
  fileName : option string;
  sound : option nat;
  isPlaying : bool;
  duration : R;
  position : R
}.

(** The defaults of the [useState] calls. *)
Definition initialState : State := mkState None None None false 0 0.

Definition setAudioUri (v : option string) : M (State * World) unit :=
  setState (fun s => mkState v (fileName s) (sound s) (isPlaying s)
    (duration s) (position s)).

Definition setFileName (v : option string) : M (State * World) unit :=
  setState (fun s => mkState (audioUri s) v (sound s) (isPlaying s)
    (duration s) (position s)).

Definition setSound (v : option nat) : M (State * World) unit :=
  setState (fun s => mkState (audioUri s) (fileName s) v (isPlaying s)
    (duration s) (position s)).

Definition setIsPlaying (v : bool) : M (State * World) unit :=
  setState (fun s => mkState (audioUri s) (fileName s) (sound s) v
    (duration s) (position s)).

Definition setDuration (v : R) : M (State * World) unit :=
  setState (fun s => mkState (audioUri s) (fileName s) (sound s)
    (isPlaying s) v (position s)).

(** The size limit of [pickAudio]: [50 * 1024 * 1024] bytes. *)
Definition SIZE_LIMIT : N := 50 * 1024 * 1024.

(** [asset.size && asset.size > 50 * 1024 * 1024] *)
Definition too_large (asset : Asset) : bool :=
  match asset_size asset with
  | Some size => negb (size =? 0)%N && (SIZE_LIMIT <? size)%N
  | None => false
  end.

(** [status.durationMillis ? status.durationMillis / 1000 : 0] *)
Definition seconds_of (durationMillis : option N) : R :=
  match durationMillis with
  | Some d => if (d =? 0)%N then 0 else IZR (Z.of_N d) / 1000
  | None => 0
  end.

Definition loadAudio (uri : string) : M (State * World) unit :=
  try_catch
    (newSound <- liftW (Audio.createAsync (Some uri) 1) ;;
     setSound (Some newSound) ;;
     status <- liftW (Audio.getStatusAsync newSound) ;;
     if isLoaded status
     then setDuration (seconds_of (durationMillis status))
     else ret tt)
    (fun err =>
       liftW (console_error "Failed to load audio") ;;
       liftW (Alert_alert "Error"
                "Failed to load audio file. The format may not be supported.")).

(** [loadAudio(savedUri)] is called without [await]; it never rejects, and
    here it runs to its end before [pickAudio] returns. *)
Definition pickAudio (st : State) : M (State * World) unit :=
  try_catch
    (result <- liftW DocumentPicker.getDocumentAsync ;;
     if canceled result then
       ret tt
     else
       (* Stop any current playback *)
       (match sound st with
        | Some s =>
            liftW (Audio.unloadAsync s) ;;
            setSound None ;;
            setIsPlaying false
        | None => ret tt
        end) ;;
       match assets result with
       | [] => throw (TypeError "Cannot read properties of undefined")
       | asset :: _ =>
           setFileName (Some (asset_name asset)) ;;
           (* Check file size (limit to 50MB for example) *)
           if too_large asset then
             liftW (Alert_alert "File too large"
                      "Please select an audio file smaller than 50MB")
           else
             try_catch
               (savedUri <- liftW (saveAudioToCache (asset_uri asset)
                                     (asset_name asset)) ;;
                setAudioUri (Some savedUri) ;;
                loadAudio savedUri)
               (fun err =>
                  liftW (console_error "Invalid audio file:") ;;
                  liftW (Alert_alert "Invalid File"
                           "Please select a valid audio file") ;;
                  setAudioUri None ;;
                  setFileName None)
       end)
    (fun err =>
       liftW (console_error "Error picking document:") ;;
       liftW (Alert_alert "Error"
                "Failed to pick audio file. Please try again.")).

End UploadScreen.

(** ** components/AudioWaveform.tsx *)

(** [constants/Colors.ts], the colours of the waveform. *)
Module Colors.

Definition waveformPrimary : string := "#007AFF".
Definition waveformSecondary : string := "#FF9500".

End Colors.

Module AudioWaveform.
Local Open Scope R_scope.

Definition BAR_COUNT : nat := 50.
Definition MAX_BAR_HEIGHT : R := 80.

(** One turn of the loop of [generateRandomBars]: [random] is the value
    that [Math.random()] returns in this turn. *)
Definition bar (i : nat) (random : R) : R :=
  (* Generate a value between 0.1 and 1.0 *)
  let randomValue := 0.1 + random * 0.9 in
  (* Apply a bell curve to make the middle bars generally taller *)
  let bellCurve := sin ((INR i / INR BAR_COUNT) * PI) in
  let height := MAX_BAR_HEIGHT * randomValue * bellCurve in
  Rmax 5 height.                       (* Ensure minimum height of 5 *)

(** [for (let i = 0; i < BAR_COUNT; i++) heights.push(...)], then
    [setBarHeights(heights)]: the result is the new [barHeights].
    [Math_random i] is the value drawn in turn [i]. *)
Definition generateRandomBars (Math_random : nat -> R) : list R :=
  fold_left (fun heights i => (heights ++ [bar i (Math_random i)])%list)
    (seq 0 BAR_COUNT) [].

(** The effect on [audioUri]: bars when there is audio or a recording runs,
    none otherwise.  The result is the new [barHeights]. *)
Definition onAudioChange (audioUri : option string) (isRecording : bool)
    (Math_random : nat -> R) : list R :=
  if truthy audioUri || isRecording
  then generateRandomBars Math_random
  else [].

(** [duration > 0 ? (position / duration) * BAR_COUNT : 0] *)
Definition playbackPosition (position duration : R) : R :=
  if Rlt_dec 0 duration then (position / duration) * INR BAR_COUNT else 0.

(** The [backgroundColor] of the bar [index]. *)
Definition barColor (isRecording : bool) (index : nat) (position duration : R)
    : string :=
  if isRecording then Colors.waveformPrimary
  else if Rle_dec (INR index) (playbackPosition position duration)
       then Colors.waveformPrimary
       else Colors.waveformSecondary.

End AudioWaveform.

(** *** JavaScript numbers: the operations of [Math] on binary64 *)

Module JsNumber.
Local Open Scope float_scope.

(** An integer below 2^53 in absolute value, as a number. *)
Definition of_Z (n : Z) : float :=
  match n with
  | Z0 => 0
  | Zpos _ => of_uint63 (Uint63.of_Z n)
  | Zneg p => - of_uint63 (Uint63.of_Z (Zpos p))
  end.

(** Truthiness of a number: [0], [-0] and [NaN] are falsy. *)
Definition truthy (x : float) : bool := negb (is_zero x || is_nan x).

(** [Math.max(a, b)]: NaN when one of the two is; [+0] is larger than
    [-0]. *)
Definition Math_max (a b : float) : float :=
  if is_nan a || is_nan b then nan
  else if a <? b then b
  else if b <? a then a
  else if get_sign a then b else a.

(** [Math.min(a, b)]: NaN when one of the two is; [-0] is smaller than
    [+0]. *)
Definition Math_min (a b : float) : float :=
  if is_nan a || is_nan b then nan
  else if a <? b then a
  else if b <? a then b
  else if get_sign a then a else b.

(** [Math.round(x)]: the integer nearest to [x], a half going up; [x]
    itself when it is an integer, infinite or NaN; [-0] for a negative [x]
    that rounds to zero.  A finite [x] is [m * 2^e] with its sign, and
    [floor (x + 1/2)] is computed on integers. *)
Definition Math_round (x : float) : float :=
  match Prim2SF x with
  | S754_finite s m e =>
      if (0 <=? e)%Z then x
      else
        let n := ((2 * (if s then Zneg m else Zpos m) + 2 ^ (- e))
                  / 2 ^ (1 - e))%Z in
        if (n =? 0)%Z then (if s then neg_zero else zero) else of_Z n
  | _ => x
  end.



End JsNumber.

(** ** components/Slider.tsx *)

Module Slider.
Import JsNumber.
Local Open Scope float_scope.

Record SliderProps : Type := mkSliderProps {
  value : float;
  minimumValue : float;
  maximumValue : float;
  step : option float                  (* step?: number *)
}.

(** The default of the destructuring: [step = 0.01]. *)
Definition step_of (p : SliderProps) : float := default 0.01 (step p).

(** Calculate the position percentage from the value. *)
Definition calculatePosition (p : SliderProps) (val : float) : float :=
  ((val - minimumValue p) / (maximumValue p - minimumValue p)) * 100.

(** The raw value at a position, before the step is applied. *)
Definition rawValue (p : SliderProps) (pos : float) : float :=
  minimumValue p + (pos / 100) * (maximumValue p - minimumValue p).

(** [Math.round(rawValue / step) * step] *)
Definition steppedValue (p : SliderProps) (pos : float) : float :=
  Math_round (rawValue p pos / step_of p) * step_of p.

(** Convert position percentage to actual value. *)
Definition calculateValue (p : SliderProps) (pos : float) : float :=
  if negb (truthy (step_of p)) then rawValue p pos   (* if (!step) return rawValue *)
  else
    (* Apply step, then ensure value is within bounds *)
    Math_min (Math_max (steppedValue p pos) (minimumValue p)) (maximumValue p).



End Slider.

(** ** [formatTime], the same in the Record, Upload and Editor screens *)

Module Format.
Local Open Scope R_scope.

(** [Math.floor], as an integer. *)
Definition Math_floor (x : R) : Z := Int_part x.

(** The integer part of [x], towards zero. *)
Definition trunc (x : R) : Z :=
  if Rlt_dec x 0 then (- Int_part (- x))%Z else Int_part x.

(** [x % y], the remainder with the sign of [x]. *)
Definition rem (x y : R) : R := x - y * IZR (trunc (x / y)).

(** [seconds] stands for a double from 0 up to 2^53.  There the floor of
    the quotient by 60 is the floor of the exact quotient, the remainder and
    its floor are exact, and the integers print in decimal; beyond, the code
    loses digits and prints exponents, which this definition does not
    follow. *)
Definition formatTime (seconds : R) : string :=
  let mins := Math_floor (seconds / 60) in
  let secs := Math_floor (rem seconds 60) in
  pretty mins +:+ ":" +:+ (if (secs <? 10)%Z then "0" else "") +:+ pretty secs.

End Format.

(** ** Vocabulary of the specifications *)

(** The world after a host call that went through and logged [ev]; [fs] is
    what is left of the fault schedule. *)
Definition called (w : World) (fs : list nat) (ev : Event) : World :=
  set_trace (fun t => (t ++ [ev])%list) (set_faults (fun _ => fs) w).

(** A host call that rejects changes the fault schedule only. *)
Definition rejects (E : JsError -> World -> Prop) (w : World) : Prop :=
  forall fs e, faults w <> [] -> E e (set_faults (fun _ => fs) w).

(** The world after a timer of [ms] milliseconds was awaited. *)
Definition slept (ms : N) (w : World) : World :=
  set_trace (fun t => (t ++ [SetTimeout ms])%list)
    (set_now (fun t => (t + ms)%N) w).

(** The directory that [createTempDirectory] names at time [t]. *)
Definition tempDirAt (w : World) (t : N) : string :=
  cacheDirectory w +:+ "temp_" +:+ pretty t +:+ "/".

(** [after w w']: the host went from [w] to [w'] without touching a file or
    the clock; events were added, and a fault schedule that was empty is
    still empty. *)
Definition after (w w' : World) : Prop :=
  os w' = os w /\ cacheDirectory w' = cacheDirectory w /\
  files w' = files w /\ now w' = now w /\
  (exists l, trace w' = (trace w ++ l)%list) /\
  (faults w = [] -> faults w' = []).

(** A call of [processingAudio] failed: it returned a result that is not a
    success, or it threw. *)
Definition failed (o : outcome ProcessingResult.t) : Prop :=
  match o with
  | Return r => ProcessingResult.success r = false
  | Throw _ => True
  end.

(** A computation that shows no alert, whether it returns or throws. *)
Definition silent {A} (m : M World A) : Prop :=
  forall w,
    wp m (fun _ w' => alerts_of (trace w') = alerts_of (trace w))
         (fun _ w' => alerts_of (trace w') = alerts_of (trace w)) w.

(** *** Concrete hosts for the examples *)

Definition song : bytes := [Byte.x49; Byte.x44; Byte.x33].

(** A device with cache directory [cache/], the given files, the clock at
    1000 ms, a host that never fails on its own, and a player that decodes
    everything as three seconds of audio. *)
Definition device (platform : OS) (fs : gmap string bytes) : World :=
  mkWorld platform "cache/" fs ∅ 1000 [] [] (fun _ => Some 3000%N) ∅ 0 [].

(** The upload screen with [old.mp3] loaded and playing as sound 0, and a
    user who is about to pick a file of 60 000 000 bytes. *)
Definition upload_state : UploadScreen.State :=
  UploadScreen.mkState (Some "cache/old.mp3") (Some "old.mp3") (Some 0%nat)
    true 3 0.

Definition upload_world : World :=
  set_picker
    (fun _ => [mkPick false
                 [mkAsset "picked/huge.wav" "huge.wav" (Some 60000000%N)]])
    (set_sounds (insert 0%nat (mkSoundStatus true true 0 (Some 3000%N) 1))
       (set_nextSound (fun _ => 1%nat)
          (device ios {[ "cache/old.mp3" := song ]}))).

(** *** Vocabulary of the further properties *)

(** Nothing is at [path], neither a file nor a directory. *)
Definition absent (path : string) (w : World) : Prop :=
  files w !! path = None /\ path ∉ dirs w.

(** [settled w w']: platform and cache directory are the same in [w'] as in
    [w], and a fault schedule that was empty is still empty. *)
Definition settled (w w' : World) : Prop :=
  os w' = os w /\ cacheDirectory w' = cacheDirectory w /\
  (faults w = [] -> faults w' = []).

(** [unchanged_but_sounds s s']: the editor states [s] and [s'] differ at most
    in the sounds of the two processed tracks. *)
Definition unchanged_but_sounds (s s' : EditorScreen.State) : Prop :=
  EditorScreen.isProcessing s' = EditorScreen.isProcessing s /\
  EditorScreen.isProcessed s' = EditorScreen.isProcessed s /\
  EditorScreen.vocalTrack s' = EditorScreen.vocalTrack s /\
  EditorScreen.instrumentalTrack s' = EditorScreen.instrumentalTrack s /\
  EditorScreen.vocalVolume s' = EditorScreen.vocalVolume s /\
  EditorScreen.instrumentalVolume s' = EditorScreen.instrumentalVolume s /\
  EditorScreen.originalSound s' = EditorScreen.originalSound s /\
  EditorScreen.isPlaying s' = EditorScreen.isPlaying s /\
  EditorScreen.playbackMode s' = EditorScreen.playbackMode s /\
  EditorScreen.duration s' = EditorScreen.duration s /\
  EditorScreen.position s' = EditorScreen.position s.

(** The state of the editor once playback was stopped. *)
Definition stopped_state (s : EditorScreen.State) : EditorScreen.State :=
  EditorScreen.mkState (EditorScreen.isProcessing s) (EditorScreen.isProcessed s)
    (EditorScreen.vocalTrack s) (EditorScreen.instrumentalTrack s)
    (EditorScreen.vocalVolume s) (EditorScreen.instrumentalVolume s)
    (EditorScreen.originalSound s) (EditorScreen.vocalSound s)
    (EditorScreen.instrumentalSound s) false (EditorScreen.playbackMode s)
    (EditorScreen.duration s) 0.

(** The duration that the player decodes from what is at [uri], if there is
    something and the player can decode it. *)
Definition loadable (w : World) (uri : option string) : option N :=
  match uri with
  | Some u =>
      match files w !! u with
      | Some content => decodeDuration w content
      | None => None
      end
  | None => None
  end.

(** [alerts_at_most_one w w']: from [w] to [w'] no alert or one alert was
    shown. *)
Definition alerts_at_most_one (w w' : World) : Prop :=
  alerts_of (trace w') = alerts_of (trace w) \/
  exists alert, alerts_of (trace w') = (alerts_of (trace w) ++ [alert])%list.

(** * Verification *)

(** ** The model at work *)

Example truthy_of_strings :
  truthy None = false /\ truthy (Some "") = false /\ truthy (Some "a.mp3") = true.
Proof. repeat split. Qed.

Example or_else_default :
  or_else None "Failed to process audio." = "Failed to process audio." /\
  or_else (Some "") "Failed to process audio." = "Failed to process audio." /\
  or_else (Some "boom") "Failed to process audio." = "boom".
Proof. repeat split. Qed.

(** A host call under the schedule [[1]]: the first call goes through, the
    second one rejects, the third one goes through again. *)
Example hostcall_schedule :
  let w := set_faults (fun _ => [1%nat]) (device ios ∅) in
  let '(r1, w1) := hostcall w in
  let '(r2, w2) := hostcall w1 in
  let '(r3, w3) := hostcall w2 in
  r1 = Return tt /\ r2 = Throw (HostError "host call rejected") /\
  r3 = Return tt /\ faults w3 = [].
Proof. repeat split. Qed.

(** The events of a separation on iOS. *)
Example processingAudio_trace :
  trace (snd (AudioProcessing.processingAudio "song.mp3"
                (device ios {[ "song.mp3" := song ]}))) =
    [SetTimeout 3000; GetInfoAsync "cache/temp_4000/";
     MakeDirectoryAsync "cache/temp_4000/";
     CopyAsync "song.mp3" "cache/temp_4000/vocals.mp3";
     CopyAsync "song.mp3" "cache/temp_4000/instrumental.mp3"].
Proof. vm_compute. reflexivity. Qed.

(** Deleting the temporary directory of a separation deletes the two tracks
    in it and nothing else; deleting one track leaves the other. *)
Example deleteAsync_directory :
  let w := snd (AudioProcessing.processingAudio "song.mp3"
                  (device ios {[ "song.mp3" := song ]})) in
  let w1 := snd (FileSystem.deleteAsync "cache/temp_4000/" w) in
  let w2 := snd (FileSystem.deleteAsync "cache/temp_4000/vocals.mp3" w) in
  (files w !! "cache/temp_4000/vocals.mp3" = Some song /\
   files w1 !! "cache/temp_4000/vocals.mp3" = None /\
   files w1 !! "cache/temp_4000/instrumental.mp3" = None /\
   files w1 !! "song.mp3" = Some song /\
   bool_decide ("cache/temp_4000/" ∈ dirs w1) = false) /\
  (files w2 !! "cache/temp_4000/vocals.mp3" = None /\
   files w2 !! "cache/temp_4000/instrumental.mp3" = Some song /\
   bool_decide ("cache/temp_4000/" ∈ dirs w2) = true).
Proof. vm_compute. repeat split; reflexivity. Qed.

(** A pick of 50 MB exactly is not too large; one byte more is. *)
Example too_large_limit :
  UploadScreen.too_large (mkAsset "u" "n" (Some 52428800%N)) = false /\
  UploadScreen.too_large (mkAsset "u" "n" (Some 52428801%N)) = true /\
  UploadScreen.too_large (mkAsset "u" "n" None) = false.
Proof. repeat split. Qed.

(** ** Rules of the weakest precondition *)

Section WpRules.
Context {S : Type}.

Lemma wp_ret {A} (a : A) (Q : A -> S -> Prop) E s :
  Q a s -> wp (ret a) Q E s.
Proof. exact (fun H => H). Qed.

Lemma wp_throw {A} e (Q : A -> S -> Prop) (E : JsError -> S -> Prop) s :
  E e s -> wp (throw e) Q E s.
Proof. exact (fun H => H). Qed.

Lemma wp_bind {A B} (m : M S A) (k : A -> M S B) Q E s :
  wp m (fun a s' => wp (k a) Q E s') E s -> wp (bind m k) Q E s.
Proof. unfold wp, bind. destruct (m s) as [[a|e] s']; trivial. Qed.

Lemma wp_try_catch {A} (body : M S A) handler Q E s :
  wp body Q (fun e s' => wp (handler e) Q E s') s ->
  wp (try_catch body handler) Q E s.
Proof. unfold wp, try_catch. destruct (body s) as [[a|e] s']; trivial. Qed.

Lemma wp_finally {A} (body : M S A) handler fin Q E s :
  wp (try_catch body handler)
     (fun a s' => wp fin (fun _ s'' => Q a s'') E s')
     (fun e s' => wp fin (fun _ s'' => E e s'') E s') s ->
  wp (try_catch_finally body handler fin) Q E s.
Proof.
  unfold wp, try_catch_finally.
  destruct (try_catch body handler s) as [[a|e] s'];
    destruct (fin s') as [[[]|e'] s'']; trivial.
Qed.

Lemma wp_get (Q : S -> S -> Prop) E s : Q s s -> wp get Q E s.
Proof. exact (fun H => H). Qed.

Lemma wp_gets {A} (f : S -> A) (Q : A -> S -> Prop) E s :
  Q (f s) s -> wp (gets f) Q E s.
Proof. exact (fun H => H). Qed.

Lemma wp_modify (f : S -> S) (Q : unit -> S -> Prop) E s :
  Q tt (f s) -> wp (modify f) Q E s.
Proof. exact (fun H => H). Qed.

Lemma wp_mono {A} (m : M S A) (Q Q' : A -> S -> Prop) (E E' : _ -> _ -> Prop) s :
  wp m Q E s ->
  (forall a s', Q a s' -> Q' a s') ->
  (forall e s', E e s' -> E' e s') ->
  wp m Q' E' s.
Proof. unfold wp. destruct (m s) as [[a|e] s']; auto. Qed.

Lemma wp_run {A} (m : M S A) Q E s :
  wp m Q E s ->
  (exists a s', m s = (Return a, s') /\ Q a s') \/
  (exists e s', m s = (Throw e, s') /\ E e s').
Proof. unfold wp. destruct (m s) as [[a|e] s']; eauto. Qed.

Lemma wp_returns {A} (m : M S A) Q s :
  wp m Q (fun _ _ => False) s ->
  exists a s', m s = (Return a, s') /\ Q a s'.
Proof. intros H. destruct (wp_run _ _ _ _ H) as [?|(?&?&?&[])]. trivial. Qed.

End WpRules.

Lemma wp_liftW {S W A} (m : M W A) (Q : A -> S * W -> Prop) E (sw : S * W) :
  wp m (fun a w' => Q a (fst sw, w')) (fun e w' => E e (fst sw, w')) (snd sw) ->
  wp (liftW m) Q E sw.
Proof. unfold wp, liftW. destruct (m (snd sw)) as [[a|e] w']; trivial. Qed.

Lemma wp_setState {S W} (f : S -> S) (Q : unit -> S * W -> Prop) E sw :
  Q tt (f (fst sw), snd sw) -> wp (setState f) Q E sw.
Proof. exact (fun H => H). Qed.

(** ** The host primitives *)

Lemma set_trace_app w (l1 l2 : list Event) :
  set_trace (fun t => (t ++ l2)%list) (set_trace (fun t => (t ++ l1)%list) w) =
  set_trace (fun t => (t ++ (l1 ++ l2))%list) w.
Proof. unfold set_trace. cbn. rewrite <- app_assoc. reflexivity. Qed.

Lemma set_faults_nil w : faults w = [] -> set_faults (fun _ => []) w = w.
Proof. destruct w; simpl; intros ->; reflexivity. Qed.

(** A host call either goes through or rejects; either way only the fault
    schedule changes, and the empty schedule stays empty and lets it through. *)
Lemma wp_hostcall (Q : unit -> World -> Prop) E w :
  (forall fs, (faults w = [] -> fs = []) -> Q tt (set_faults (fun _ => fs) w)) ->
  (forall fs e, faults w <> [] -> E e (set_faults (fun _ => fs) w)) ->
  wp hostcall Q E w.
Proof.
  intros HQ HE. unfold wp, hostcall.
  destruct (faults w) as [|[|n] fs] eqn:Hf.
  - rewrite <- (set_faults_nil w Hf). apply HQ. trivial.
  - apply HE. discriminate.
  - apply HQ. discriminate.
Qed.

Lemma wp_emit ev (Q : unit -> World -> Prop) E w :
  Q tt (set_trace (fun t => (t ++ [ev])%list) w) -> wp (emit ev) Q E w.
Proof. exact (fun H => H). Qed.

Lemma wp_sleep ms (Q : unit -> World -> Prop) E w :
  Q tt (set_trace (fun t => (t ++ [SetTimeout ms])%list)
          (set_now (fun t => (t + ms)%N) w)) ->
  wp (sleep ms) Q E w.
Proof. exact (fun H => H). Qed.

Ltac wp_step :=
  lazymatch goal with
  | |- wp (bind _ _) _ _ _ => apply wp_bind
  | |- wp (ret _) _ _ _ => apply wp_ret
  | |- wp (throw _) _ _ _ => apply wp_throw
  | |- wp (try_catch _ _) _ _ _ => apply wp_try_catch
  | |- wp (try_catch_finally _ _ _) _ _ _ => apply wp_finally
  | |- wp get _ _ _ => apply wp_get
  | |- wp (gets _) _ _ _ => apply wp_gets
  | |- wp (modify _) _ _ _ => apply wp_modify
  | |- wp (liftW _) _ _ _ => apply wp_liftW
  | |- wp (setState _) _ _ _ => apply wp_setState
  | |- wp (sleep _) _ _ _ => apply wp_sleep
  | |- wp (emit _) _ _ _ => apply wp_emit
  end.

Ltac wp_steps := repeat (cbv beta; wp_step).

Ltac wsimpl :=
  cbn [os cacheDirectory files dirs now faults trace decodeDuration sounds
       nextSound picker set_files set_dirs set_now set_faults set_trace
       set_sounds set_nextSound set_picker fst snd FileSystem.exists_ negb]
    in *.

Lemma wp_getInfoAsync path Q E w :
  (forall fs, (faults w = [] -> fs = []) ->
     Q (FileSystem.mkFileInfo
          (bool_decide (is_Some (files w !! path)) || bool_decide (path ∈ dirs w)))
       (called w fs (GetInfoAsync path))) ->
  rejects E w ->
  wp (FileSystem.getInfoAsync path) Q E w.
Proof.
  intros HQ HE. unfold FileSystem.getInfoAsync.
  wp_step. apply wp_hostcall; [intros fs Hfs | exact HE].
  wp_steps. apply HQ, Hfs.
Qed.

Lemma wp_deleteAsync path Q E w :
  (forall fs, (faults w = [] -> fs = []) ->
     bool_decide (is_Some (files w !! path)) || bool_decide (path ∈ dirs w) = true ->
     Q tt (set_dirs (filter (fun q => FileSystem.kept (dirs w) path q = true))
             (set_files
                (filter (fun entry => FileSystem.kept (dirs w) path (fst entry) = true))
                (called w fs (DeleteAsync path))))) ->
  (forall fs, (faults w = [] -> fs = []) ->
     bool_decide (is_Some (files w !! path)) || bool_decide (path ∈ dirs w) = false ->
     E (HostError "file does not exist") (called w fs (DeleteAsync path))) ->
  rejects E w ->
  wp (FileSystem.deleteAsync path) Q E w.
Proof.
  intros HQ HN HE. unfold FileSystem.deleteAsync.
  wp_step. apply wp_hostcall; [intros fs Hfs | exact HE].
  wp_steps. wsimpl.
  destruct (bool_decide (is_Some (files w !! path)) || bool_decide (path ∈ dirs w))
    eqn:Hex.
  - wp_steps. apply HQ; trivial.
  - wp_steps. apply HN; trivial.
Qed.

Lemma wp_copyAsync from to Q E w :
  (forall fs content, (faults w = [] -> fs = []) ->
     files w !! from = Some content ->
     Q tt (set_files (insert to content) (called w fs (CopyAsync from to)))) ->
  (forall fs, (faults w = [] -> fs = []) ->
     files w !! from = None ->
     E (HostError "source file does not exist") (called w fs (CopyAsync from to))) ->
  rejects E w ->
  wp (FileSystem.copyAsync from to) Q E w.
Proof.
  intros HQ HN HE. unfold FileSystem.copyAsync.
  wp_step. apply wp_hostcall; [intros fs Hfs | exact HE].
  wp_steps. wsimpl.
  destruct (files w !! from) as [content|] eqn:Hsrc.
  - wp_steps. apply HQ; trivial.
  - wp_steps. apply HN; trivial.
Qed.

Lemma wp_makeDirectoryAsync path Q E w :
  (forall fs, (faults w = [] -> fs = []) ->
     Q tt (set_dirs (fun d => d ∪ {[ path ]}) (called w fs (MakeDirectoryAsync path)))) ->
  rejects E w ->
  wp (FileSystem.makeDirectoryAsync path) Q E w.
Proof.
  intros HQ HE. unfold FileSystem.makeDirectoryAsync.
  wp_step. apply wp_hostcall; [intros fs Hfs | exact HE].
  wp_steps. apply HQ, Hfs.
Qed.

Ltac wp_host :=
  lazymatch goal with
  | |- wp (FileSystem.getInfoAsync _) _ _ _ =>
      apply wp_getInfoAsync; [ intros ? ? | intros ? ? ? ]
  | |- wp (FileSystem.deleteAsync _) _ _ _ =>
      apply wp_deleteAsync; [ intros ? ? ? | intros ? ? ? | intros ? ? ? ]
  | |- wp (FileSystem.copyAsync _ _) _ _ _ =>
      apply wp_copyAsync; [ intros ? ? ? ? | intros ? ? ? | intros ? ? ? ]
  | |- wp (FileSystem.makeDirectoryAsync _) _ _ _ =>
      apply wp_makeDirectoryAsync; [ intros ? ? | intros ? ? ? ]
  | |- wp hostcall _ _ _ =>
      apply wp_hostcall; [ intros ? ? | intros ? ? ? ]
  end.

Ltac wp_auto :=
  repeat (cbv beta; unfold called; wsimpl; first [ wp_step | wp_host ]);
  cbv beta; unfold called; wsimpl.

(** Consequences of a fault schedule that was empty at the start. *)
Ltac calm :=
  intros;
  repeat match goal with
         | H : ?P -> _, H' : ?P |- _ => specialize (H H')
         end;
  congruence.

(** *** What a delete keeps *)

Section DeleteFacts.
Import FileSystem.

Lemma lookup_kept (d : gset string) (path q : string) (m : gmap string bytes) :
  filter (fun entry => kept d path (fst entry) = true) m !! q =
  if kept d path q then m !! q else None.
Proof.
  destruct (kept d path q) eqn:Hk.
  - destruct (m !! q) as [c|] eqn:Hq.
    + apply map_lookup_filter_Some. split; [exact Hq|exact Hk].
    + apply map_lookup_filter_None. left. exact Hq.
  - apply map_lookup_filter_None. right. intros c _. cbn [fst]. congruence.
Qed.

Lemma kept_self (d : gset string) (path : string) : kept d path path = false.
Proof. unfold kept. rewrite bool_decide_eq_true_2; reflexivity. Qed.

Lemma kept_file (d : gset string) (path q : string) :
  path ∉ d -> kept d path q = negb (bool_decide (q = path)).
Proof.
  intros Hd. unfold kept. rewrite (bool_decide_eq_false_2 _ Hd).
  cbn. apply andb_true_r.
Qed.

Lemma kept_ne (d : gset string) (path q : string) :
  kept d path q = true -> q <> path.
Proof.
  unfold kept. intros H Heq. apply andb_true_iff in H. destruct H as [H _].
  rewrite (bool_decide_eq_true_2 _ Heq) in H. discriminate H.
Qed.

(** Deleting a file, not a directory, is deleting one key. *)
Lemma kept_delete (d : gset string) (path : string) (m : gmap string bytes) :
  path ∉ d ->
  filter (fun entry => kept d path (fst entry) = true) m = delete path m.
Proof.
  intros Hd. apply map_eq. intros q. rewrite lookup_kept, (kept_file _ _ _ Hd).
  destruct (decide (q = path)) as [->|Hne].
  - rewrite bool_decide_eq_true_2 by reflexivity. cbn.
    symmetry. apply lookup_delete_eq.
  - rewrite (bool_decide_eq_false_2 _ Hne). cbn.
    symmetry. apply lookup_delete_ne. congruence.
Qed.

Lemma kept_gone (d d' : gset string) (path : string) :
  path ∉ filter (fun q => kept d path q = true) d'.
Proof.
  intros Hin. apply elem_of_filter in Hin. destruct Hin as [Hk _].
  rewrite kept_self in Hk. discriminate Hk.
Qed.

Lemma kept_subseteq (d d' : gset string) (path : string) :
  filter (fun q => kept d path q = true) d' ⊆ d'.
Proof. intros q Hin. apply elem_of_filter in Hin. tauto. Qed.

End DeleteFacts.

(** ** utils/fileSystem.ts *)

Ltac trace_tail :=
  wsimpl;
  repeat match goal with
         | H : trace _ = _ |- _ => rewrite H
         end;
  repeat rewrite <- app_assoc; cbn [app];
  eexists; reflexivity.

Ltac after_tac :=
  repeat split; wsimpl; trivial;
  first [ trace_tail | solve [ intuition auto ] ].

(** The events of a run that ended by logging: all but the last one. *)
Ltac logged :=
  wsimpl; rewrite <- ?app_assoc; cbn [app];
  lazymatch goal with
  | |- exists l, (?t ++ ?all)%list = (?t ++ l ++ _)%list =>
      exists (removelast all); reflexivity
  end.

Section FileSystemFacts.
Import FileSystemUtils.

(** On a native platform [createTempDirectory] names the directory after
    the clock, touches no file, and rejects only when the host does. *)
Lemma wp_createTempDirectory Q E w :
  is_web (os w) = false ->
  (forall w', after w w' -> Q (tempDirAt w (now w)) w') ->
  (forall e w', after w w' -> faults w <> [] -> E e w') ->
  wp createTempDirectory Q E w.
Proof.
  intros Hos HQ HE. unfold createTempDirectory, Platform_OS, Date_now,
    console_error.
  wp_auto. rewrite Hos. wp_auto.
  - match goal with |- wp (if ?b then _ else _) _ _ _ => destruct b end;
      wp_auto; first [ apply HQ | apply HE ]; after_tac.
  - apply HE; after_tac.
Qed.

(** What [saveAudioToCache] guarantees on a native platform, whatever the
    host does: when it returns, the destination holds the content of the
    source, which is still in place; when it throws, the error was logged
    first, and with a host that never fails on its own the source was
    missing or was deleted with the destination. *)
Lemma saveAudioToCache_native uri filename w :
  is_web (os w) = false ->
  let destination := cacheDirectory w +:+ filename in
  let existed :=
    bool_decide (is_Some (files w !! destination))
    || bool_decide (destination ∈ dirs w) in
  wp (saveAudioToCache uri filename)
    (fun path w' =>
       path = destination /\
       (exists content,
          files w !! uri = Some content /\
          files w' !! destination = Some content /\
          files w' !! uri = Some content /\
          (destination ∉ dirs w ->
           files w' = <[destination := content]> (files w))) /\
       trace w' =
         (trace w ++ GetInfoAsync destination
            :: (if existed then [DeleteAsync destination] else [])
            ++ [CopyAsync uri destination])%list)
    (fun e w' =>
       (exists l, trace w' =
          (trace w ++ l ++ [ConsoleError "Error saving file to cache:"])%list) /\
       (faults w = [] ->
        files w !! uri = None \/ FileSystem.kept (dirs w) destination uri = false))
    w.
Proof.
  intros Hos. cbv zeta.
  set (destination := cacheDirectory w +:+ filename) in *.
  set (existed := bool_decide (is_Some (files w !! destination))
                  || bool_decide (destination ∈ dirs w)) in *.
  set (Q := fun (path : string) (w' : World) => _).
  set (E := fun (e : JsError) (w' : World) => _).
  unfold saveAudioToCache, Platform_OS, console_error.
  wp_auto. rewrite Hos. wp_auto.
  - fold destination. fold existed. destruct existed eqn:Hex; wp_auto.
    all: subst Q E; cbv beta; wsimpl.
    + (* the destination was there: deleted, then written again *)
      rewrite lookup_kept in H3.
      destruct (FileSystem.kept (dirs w) destination uri) eqn:Hkept;
        [|discriminate].
      pose proof (kept_ne _ _ _ Hkept) as Hne.
      split; [reflexivity|]. split.
      * exists content. split; [exact H3|]. split; [apply lookup_insert_eq|].
        split.
        -- rewrite lookup_insert_ne by congruence.
           rewrite lookup_kept, Hkept. exact H3.
        -- intros Hfile. rewrite (kept_delete _ _ _ Hfile).
           apply insert_delete_eq.
      * rewrite <- !app_assoc. reflexivity.
    + split; [logged|]. intros _. rewrite lookup_kept in H3.
      destruct (FileSystem.kept (dirs w) destination uri); auto.
    + split; [logged|calm].
    + exfalso. unfold existed in Hex. congruence.
    + split; [logged|calm].
    + split; [reflexivity|]. split.
      * exists content. split; [assumption|]. split; [apply lookup_insert_eq|].
        split; [|reflexivity].
        destruct (decide (destination = uri)) as [->|Hne];
          [apply lookup_insert_eq|].
        rewrite lookup_insert_ne by exact Hne. assumption.
      * rewrite <- !app_assoc. reflexivity.
    + split; [logged|auto].
    + split; [logged|calm].
  - subst Q E; cbv beta; wsimpl. split; [logged|calm].
Qed.

End FileSystemFacts.

(** *** Claim about [saveAudioToCache] *)

(** C6 (as the code has it).  On web [saveAudioToCache] returns the input
    URI and touches nothing.  On a native platform, when it returns, it
    returns [cacheDirectory + filename], after asking for the destination,
    deleting what was there and copying the source; the destination then
    holds the content of the source, which is still in place, and when the
    destination was not a directory no other file changed.  It need not
    return: when a host call rejects, the error is logged and thrown
    again. *)
Theorem saveAudioToCache_spec (uri filename : string) (w : World) :
  if is_web (os w) then
    FileSystemUtils.saveAudioToCache uri filename w = (Return uri, w)
  else
    let destination := cacheDirectory w +:+ filename in
    let existed :=
      bool_decide (is_Some (files w !! destination))
      || bool_decide (destination ∈ dirs w) in
    wp (FileSystemUtils.saveAudioToCache uri filename)
      (fun path w' =>
         path = destination /\
         (exists content,
            files w !! uri = Some content /\
            files w' !! destination = Some content /\
            files w' !! uri = Some content /\
            (destination ∉ dirs w ->
             files w' = <[destination := content]> (files w))) /\
         trace w' =
           (trace w ++ GetInfoAsync destination
              :: (if existed then [DeleteAsync destination] else [])
              ++ [CopyAsync uri destination])%list)
      (fun e w' =>
         exists l, trace w' =
           (trace w ++ l ++ [ConsoleError "Error saving file to cache:"])%list)
      w.
Proof.
  destruct (is_web (os w)) eqn:Hos.
  - unfold FileSystemUtils.saveAudioToCache, Platform_OS, bind, gets.
    rewrite Hos. reflexivity.
  - cbv zeta.
    apply (wp_mono _ _ _ _ _ _ (saveAudioToCache_native uri filename w Hos)).
    + intros path w' H. exact H.
    + intros e w' [Hlog _]. exact Hlog.
Qed.

(** On an iOS device a recording is saved over an older file of that name. *)
Lemma saveAudioToCache_spec_witness :
  exists w',
    FileSystemUtils.saveAudioToCache "AV/rec.m4a" "recording.m4a"
      (device ios {[ "AV/rec.m4a" := song; "cache/recording.m4a" := [] ]}) =
      (Return "cache/recording.m4a", w') /\
    files w' !! "cache/recording.m4a" = Some song /\
    trace w' = [GetInfoAsync "cache/recording.m4a";
                DeleteAsync "cache/recording.m4a";
                CopyAsync "AV/rec.m4a" "cache/recording.m4a"].
Proof.
  pose proof (saveAudioToCache_spec "AV/rec.m4a" "recording.m4a"
    (device ios {[ "AV/rec.m4a" := song; "cache/recording.m4a" := [] ]})) as H.
  cbn [device os is_web] in H. cbv zeta in H.
  destruct (wp_run _ _ _ _ H)
    as [(path & w' & Hrun & -> & (content & Hc & Hd & _) & Htr)
       |(e & w' & Hrun & _)].
  - exists w'. split; [exact Hrun|].
    assert (content = song) as ->
      by (vm_compute in Hc; injection Hc as <-; reflexivity).
    rewrite Htr. split; [exact Hd|vm_compute; reflexivity].
  - vm_compute in Hrun. discriminate Hrun.
Defined.

(** C6 as stated fails on a native platform: the call does not return for
    every input.  When the source file does not exist the copy rejects, and
    the error is thrown again. *)
Lemma saveAudioToCache_counterexample :
  fst (FileSystemUtils.saveAudioToCache "missing.mp3" "a.mp3" (device ios ∅)) =
    Throw (HostError "source file does not exist").
Proof. vm_compute. reflexivity. Qed.

(** ** utils/audioProcessing.ts *)

Lemma append_inj_r (p a b : string) : p +:+ a = p +:+ b -> a = b.
Proof.
  induction p as [|c p IH]; simpl; intros H; [trivial|].
  injection H. exact IH.
Qed.

Lemma lookup_insert_same (m : gmap string bytes) k k' c :
  m !! k = Some c -> <[k' := c]> m !! k = Some c.
Proof.
  intros H. destruct (decide (k' = k)) as [->|Hne].
  - apply lookup_insert_eq.
  - rewrite lookup_insert_ne; trivial.
Qed.

Section AudioProcessingFacts.
Import FileSystemUtils AudioProcessing.

Lemma webProcessAudio_run uri w :
  webProcessAudio uri w =
    (Return (ProcessingResult.mk true (Some (uri +:+ "_vocals"))
               (Some (uri +:+ "_instrumental")) None),
     slept 3000 w).
Proof. reflexivity. Qed.

Lemma nativeProcessAudio_wp uri w :
  is_web (os w) = false ->
  wp (nativeProcessAudio uri)
    (fun r w' =>
       (exists l, trace w' = (trace w ++ SetTimeout 3000 :: l)%list) /\
       let tempDir := tempDirAt w (now w + 3000) in
       ((r = ProcessingResult.mk true (Some (tempDir +:+ "vocals.mp3"))
               (Some (tempDir +:+ "instrumental.mp3")) None /\
         exists content,
           files w !! uri = Some content /\
           files w' = <[tempDir +:+ "instrumental.mp3" := content]>
                        (<[tempDir +:+ "vocals.mp3" := content]> (files w)))
        \/
        (r = ProcessingResult.mk false None None
               (Some "Failed to process audio on device.") /\
         (faults w = [] -> files w !! uri = None))))
    (fun _ _ => False) w.
Proof.
  intros Hos. cbv zeta.
  set (Q := fun (r : ProcessingResult.t) (w' : World) => _).
  unfold nativeProcessAudio, nativeProcessAudio_try, console_error.
  wp_auto. apply wp_createTempDirectory; [exact Hos | |].
  - intros w1 (Hos1 & Hcd1 & Hfiles1 & Hnow1 & [l1 Htr1] & Hcalm1).
    wsimpl. unfold tempDirAt at 1 2 3 4. wsimpl.
    fold (tempDirAt w (now w + 3000)).
    set (tempDir := tempDirAt w (now w + 3000)) in *.
    wp_auto; subst Q; cbv beta; wsimpl.
    all: split; [trace_tail|]; rewrite Hfiles1 in *.
    all: try (right; split; [reflexivity|]).
    + left. split; [reflexivity|].
      rewrite (lookup_insert_same _ _ _ _ H0) in H2. injection H2 as <-.
      eauto.
    + rewrite (lookup_insert_same _ _ _ _ H0) in H2. discriminate.
    + calm.
    + trivial.
    + calm.
  - intros e w1 (Hos1 & Hcd1 & Hfiles1 & Hnow1 & [l1 Htr1] & Hcalm1) Hf.
    wp_auto; subst Q; cbv beta; wsimpl.
    split; [trace_tail|]. right. split; [reflexivity|calm].
Qed.

Lemma webMergeAudio_run vocalUri instrumentalUri vocalVolume instrumentalVolume w :
  webMergeAudio vocalUri instrumentalUri vocalVolume instrumentalVolume w =
    (Return (MergeResult.mk true
               (Some ("mixed_" +:+ pretty (now w + 2000)%N +:+ ".mp3")) None),
     slept 2000 w).
Proof. reflexivity. Qed.

Lemma nativeMergeAudio_wp vocalUri instrumentalUri vocalVolume instrumentalVolume w :
  wp (nativeMergeAudio vocalUri instrumentalUri vocalVolume instrumentalVolume)
    (fun r w' =>
       (exists l, trace w' = (trace w ++ SetTimeout 2000 :: l)%list) /\
       let outputUri :=
         cacheDirectory w +:+ "mixed_" +:+ pretty (now w + 2000)%N +:+ ".mp3" in
       ((r = MergeResult.mk true (Some outputUri) None /\
         (exists content,
            files w !! vocalUri = Some content /\
            files w' = <[outputUri := content]> (files w)) /\
         trace w' =
           (trace w ++ [SetTimeout 2000; CopyAsync vocalUri outputUri])%list)
        \/
        (r = MergeResult.mk false None
               (Some "Failed to merge audio tracks on device.") /\
         files w' = files w /\
         (faults w = [] -> files w !! vocalUri = None))))
    (fun _ _ => False) w.
Proof.
  cbv zeta. set (Q := fun (r : MergeResult.t) (w' : World) => _).
  unfold nativeMergeAudio, nativeMergeAudio_try, Date_now, console_error.
  wp_auto; subst Q; cbv beta; wsimpl.
  all: split; [trace_tail|].
  - left. split; [reflexivity|]. split; [eauto|].
    rewrite <- !app_assoc. reflexivity.
  - right. auto.
  - right. split; [reflexivity|]. split; [reflexivity|calm].
Qed.

End AudioProcessingFacts.

(** *** Claims about [processingAudio] and [mergeAudioTracks] *)

(** C1 (as the code has it).  [processingAudio] first awaits a timer of
    3000 ms and always returns a result.  On web the result is success with
    the paths [audioUri + "_vocals"] and [audioUri + "_instrumental"], and
    nothing is copied: the host is left as it was but for the timer.  On a
    native platform the result is either success with the paths
    [vocals.mp3] and [instrumental.mp3] under the temporary directory, both
    holding the content of the input file, or failure with the message
    "Failed to process audio on device."; with a host that never fails on
    its own, failure means that the input file does not exist. *)
Theorem processingAudio_spec (audioUri : string) (w : World) :
  if is_web (os w) then
    AudioProcessing.processingAudio audioUri w =
      (Return (ProcessingResult.mk true (Some (audioUri +:+ "_vocals"))
                 (Some (audioUri +:+ "_instrumental")) None),
       slept 3000 w)
  else
    wp (AudioProcessing.processingAudio audioUri)
      (fun r w' =>
         (exists l, trace w' = (trace w ++ SetTimeout 3000 :: l)%list) /\
         let tempDir := tempDirAt w (now w + 3000) in
         ((r = ProcessingResult.mk true (Some (tempDir +:+ "vocals.mp3"))
                 (Some (tempDir +:+ "instrumental.mp3")) None /\
           exists content,
             files w !! audioUri = Some content /\
             files w' = <[tempDir +:+ "instrumental.mp3" := content]>
                          (<[tempDir +:+ "vocals.mp3" := content]> (files w)))
          \/
          (r = ProcessingResult.mk false None None
                 (Some "Failed to process audio on device.") /\
           (faults w = [] -> files w !! audioUri = None))))
      (fun _ _ => False) w.
Proof.
  destruct (is_web (os w)) eqn:Hos.
  - unfold AudioProcessing.processingAudio, Platform_OS, bind, gets.
    rewrite Hos. apply webProcessAudio_run.
  - unfold AudioProcessing.processingAudio, Platform_OS.
    apply wp_bind, wp_gets. rewrite Hos.
    apply nativeProcessAudio_wp, Hos.
Qed.

(** On an iOS device that holds [song.mp3], both output paths hold the song. *)
Lemma processingAudio_spec_witness :
  exists w',
    AudioProcessing.processingAudio "song.mp3"
      (device ios {[ "song.mp3" := song ]}) =
      (Return (ProcessingResult.mk true (Some "cache/temp_4000/vocals.mp3")
                 (Some "cache/temp_4000/instrumental.mp3") None), w') /\
    files w' !! "cache/temp_4000/vocals.mp3" = Some song /\
    files w' !! "cache/temp_4000/instrumental.mp3" = Some song.
Proof.
  pose proof (processingAudio_spec "song.mp3"
                (device ios {[ "song.mp3" := song ]})) as H.
  cbn [device os is_web] in H. apply wp_returns in H.
  destruct H as (r & w' & Hrun & _ & [[-> (content & Hc & Hf)] | [_ Hmiss]]).
  - exists w'. split; [exact Hrun|].
    assert (content = song) as ->
      by (vm_compute in Hc; injection Hc as <-; reflexivity).
    rewrite Hf. split; vm_compute; reflexivity.
  - specialize (Hmiss eq_refl). vm_compute in Hmiss. discriminate.
Defined.

(** C1 as stated fails twice.  On web the input exists and the result is
    success, but the output paths refer to nothing; on iOS an input that
    does not exist gives a failure. *)
Lemma processingAudio_counterexample :
  (let '(r, w') := AudioProcessing.processingAudio "song.mp3"
                     (device web {[ "song.mp3" := song ]}) in
   r = Return (ProcessingResult.mk true (Some "song.mp3_vocals")
                 (Some "song.mp3_instrumental") None) /\
   files w' !! "song.mp3_vocals" = None /\
   files w' !! "song.mp3_instrumental" = None) /\
  fst (AudioProcessing.processingAudio "missing.mp3" (device ios ∅)) =
    Return (ProcessingResult.mk false None None
              (Some "Failed to process audio on device.")).
Proof. vm_compute. repeat split. Qed.

(** C2 (as the code has it).  [mergeAudioTracks] first awaits a timer of
    2000 ms and always returns a result; it mixes nothing.  On web the result
    is success with the path [mixed_<now>.mp3] and no file is touched.  On a
    native platform the result is either success with the path
    [mixed_<now>.mp3] in the cache directory, which then holds the content of
    the vocal file, the only host calls being the timer and that one copy, or
    failure with "Failed to merge audio tracks on device." and the files as
    they were; with a host that never fails on its own, failure means that
    the vocal file does not exist.  The instrumental path is never used: any
    other path gives the same run. *)
Theorem mergeAudioTracks_spec (vocalUri instrumentalUri : string)
    (vocalVolume instrumentalVolume : R) (w : World) :
  (if is_web (os w) then
     AudioProcessing.mergeAudioTracks vocalUri instrumentalUri vocalVolume
       instrumentalVolume w =
       (Return (MergeResult.mk true
                  (Some ("mixed_" +:+ pretty (now w + 2000)%N +:+ ".mp3")) None),
        slept 2000 w)
   else
     wp (AudioProcessing.mergeAudioTracks vocalUri instrumentalUri vocalVolume
           instrumentalVolume)
       (fun r w' =>
          (exists l, trace w' = (trace w ++ SetTimeout 2000 :: l)%list) /\
          let outputUri :=
            cacheDirectory w +:+ "mixed_" +:+ pretty (now w + 2000)%N +:+ ".mp3" in
          ((r = MergeResult.mk true (Some outputUri) None /\
            (exists content,
               files w !! vocalUri = Some content /\
               files w' = <[outputUri := content]> (files w)) /\
            trace w' =
              (trace w ++ [SetTimeout 2000; CopyAsync vocalUri outputUri])%list)
           \/
           (r = MergeResult.mk false None
                  (Some "Failed to merge audio tracks on device.") /\
            files w' = files w /\
            (faults w = [] -> files w !! vocalUri = None))))
       (fun _ _ => False) w)
  /\
  (forall other : string,
     AudioProcessing.mergeAudioTracks vocalUri other vocalVolume
       instrumentalVolume w =
     AudioProcessing.mergeAudioTracks vocalUri instrumentalUri vocalVolume
       instrumentalVolume w).
Proof.
  split; [|reflexivity].
  destruct (is_web (os w)) eqn:Hos.
  - unfold AudioProcessing.mergeAudioTracks, Platform_OS, bind, gets.
    rewrite Hos. apply webMergeAudio_run.
  - unfold AudioProcessing.mergeAudioTracks, Platform_OS.
    apply wp_bind, wp_gets. rewrite Hos.
    apply nativeMergeAudio_wp.
Qed.

(** On an iOS device that holds [vocals.mp3], the output holds its content. *)
Lemma mergeAudioTracks_spec_witness :
  exists w',
    AudioProcessing.mergeAudioTracks "vocals.mp3" "instrumental.mp3" 1 0.5
      (device ios {[ "vocals.mp3" := song ]}) =
      (Return (MergeResult.mk true (Some "cache/mixed_3000.mp3") None), w') /\
    files w' !! "cache/mixed_3000.mp3" = Some song.
Proof.
  pose proof (proj1 (mergeAudioTracks_spec "vocals.mp3" "instrumental.mp3" 1 0.5
                       (device ios {[ "vocals.mp3" := song ]}))) as H.
  cbn [device os is_web] in H. apply wp_returns in H.
  destruct H as (r & w' & Hrun & _ & [(-> & (content & Hc & Hf) & _) | (_ & _ & Hmiss)]).
  - exists w'. split; [exact Hrun|].
    assert (content = song) as ->
      by (vm_compute in Hc; injection Hc as <-; reflexivity).
    rewrite Hf. vm_compute. reflexivity.
  - specialize (Hmiss eq_refl). vm_compute in Hmiss. discriminate.
Defined.

(** C2 as stated fails: on iOS, when the vocal file does not exist, the
    result is a failure, and no output file is written. *)
Lemma mergeAudioTracks_counterexample :
  let '(r, w') := AudioProcessing.mergeAudioTracks "vocals.mp3"
                    "instrumental.mp3" 1 1
                    (device ios {[ "instrumental.mp3" := song ]}) in
  r = Return (MergeResult.mk false None
                (Some "Failed to merge audio tracks on device.")) /\
  files w' !! "cache/mixed_3000.mp3" = None.
Proof. vm_compute. split; reflexivity. Qed.

(** C3.  The volumes are never used: two runs of [mergeAudioTracks] on the
    same tracks and the same host that differ in the volumes only have the
    same outcome (so the same success flag) and leave the same host (so the
    same output file content). *)
Theorem mergeAudioTracks_ignores_volumes (vocalUri instrumentalUri : string)
    (vocalVolume1 instrumentalVolume1 vocalVolume2 instrumentalVolume2 : R)
    (w : World) :
  AudioProcessing.mergeAudioTracks vocalUri instrumentalUri vocalVolume1
    instrumentalVolume1 w =
  AudioProcessing.mergeAudioTracks vocalUri instrumentalUri vocalVolume2
    instrumentalVolume2 w.
Proof.
  unfold AudioProcessing.mergeAudioTracks, bind.
  destruct (Platform_OS w) as [[platform|e] w']; [|reflexivity].
  destruct (is_web platform); reflexivity.
Qed.

(** A [try] block that ends with [return { success: true, ... }] returns
    nothing else. *)
Lemma wp_returned {S A B} (m : M S A) (k : A -> M S B) (Q : B -> S -> Prop) s :
  (forall a s', wp (k a) Q (fun _ _ => True) s') ->
  wp (bind m k) Q (fun _ _ => True) s.
Proof.
  intros Hk. unfold wp, bind. destruct (m s) as [[a|e] s']; [|trivial].
  apply Hk.
Qed.

Lemma nativeProcessAudio_try_success audioUri w :
  wp (AudioProcessing.nativeProcessAudio_try audioUri)
    (fun r _ => ProcessingResult.success r = true) (fun _ _ => True) w.
Proof.
  unfold AudioProcessing.nativeProcessAudio_try.
  do 4 (apply wp_returned; intros ? ?). apply wp_ret. reflexivity.
Qed.

Lemma nativeMergeAudio_try_success vocalUri instrumentalUri vocalVolume
    instrumentalVolume w :
  wp (AudioProcessing.nativeMergeAudio_try vocalUri instrumentalUri vocalVolume
        instrumentalVolume)
    (fun r _ => MergeResult.success r = true) (fun _ _ => True) w.
Proof.
  unfold AudioProcessing.nativeMergeAudio_try.
  do 4 (apply wp_returned; intros ? ?). apply wp_ret. reflexivity.
Qed.

(** C4.  [processingAudio] and [mergeAudioTracks] never throw, whatever the
    host does.  When the [try] block of the platform's function runs to its
    end, its result is returned, and it is a success.  When anything inside
    the block fails, the error is caught: the function logs it and returns a
    result with [success] false, no track or output, and a non-empty error
    message.  So a failure shows in the returned record and nowhere else. *)
Theorem processing_never_rejects (w : World) :
  (forall audioUri,
     match (if is_web (os w)
            then AudioProcessing.webProcessAudio_try audioUri
            else AudioProcessing.nativeProcessAudio_try audioUri) w with
     | (Return r, w') =>
         AudioProcessing.processingAudio audioUri w = (Return r, w') /\
         ProcessingResult.success r = true
     | (Throw e, w') =>
         exists r log,
           AudioProcessing.processingAudio audioUri w =
             (Return r, set_trace (fun t => (t ++ [ConsoleError log])%list) w') /\
           ProcessingResult.success r = false /\
           ProcessingResult.vocalTrack r = None /\
           ProcessingResult.instrumentalTrack r = None /\
           exists msg, ProcessingResult.error r = Some msg /\ msg <> ""
     end) /\
  (forall vocalUri instrumentalUri vocalVolume instrumentalVolume,
     match (if is_web (os w)
            then AudioProcessing.webMergeAudio_try vocalUri instrumentalUri
                   vocalVolume instrumentalVolume
            else AudioProcessing.nativeMergeAudio_try vocalUri instrumentalUri
                   vocalVolume instrumentalVolume) w with
     | (Return r, w') =>
         AudioProcessing.mergeAudioTracks vocalUri instrumentalUri vocalVolume
           instrumentalVolume w = (Return r, w') /\
         MergeResult.success r = true
     | (Throw e, w') =>
         exists r log,
           AudioProcessing.mergeAudioTracks vocalUri instrumentalUri vocalVolume
             instrumentalVolume w =
             (Return r, set_trace (fun t => (t ++ [ConsoleError log])%list) w') /\
           MergeResult.success r = false /\
           MergeResult.outputUri r = None /\
           exists msg, MergeResult.error r = Some msg /\ msg <> ""
     end).
Proof.
  split.
  - intros audioUri.
    unfold AudioProcessing.processingAudio, Platform_OS, bind, gets.
    destruct (is_web (os w)) eqn:Hos.
    + split; reflexivity.
    + pose proof (nativeProcessAudio_try_success audioUri w) as Hs.
      unfold wp in Hs.
      unfold AudioProcessing.nativeProcessAudio, try_catch.
      destruct (AudioProcessing.nativeProcessAudio_try audioUri w)
        as [[r|e] w'].
      * split; [reflexivity|exact Hs].
      * eexists _, _. split; [reflexivity|]. cbn.
        repeat (split; [reflexivity|]).
        eexists. split; [reflexivity|discriminate].
  - intros vocalUri instrumentalUri vocalVolume instrumentalVolume.
    unfold AudioProcessing.mergeAudioTracks, Platform_OS, bind, gets.
    destruct (is_web (os w)) eqn:Hos.
    + split; reflexivity.
    + pose proof (nativeMergeAudio_try_success vocalUri instrumentalUri
                    vocalVolume instrumentalVolume w) as Hs.
      unfold wp in Hs.
      unfold AudioProcessing.nativeMergeAudio, try_catch.
      destruct (AudioProcessing.nativeMergeAudio_try vocalUri instrumentalUri
                  vocalVolume instrumentalVolume w) as [[r|e] w'].
      * split; [reflexivity|exact Hs].
      * eexists _, _. split; [reflexivity|]. cbn.
        repeat (split; [reflexivity|]).
        eexists. split; [reflexivity|discriminate].
Qed.

(** A failure that is returned, not thrown: the input is missing on iOS. *)
Lemma processing_never_rejects_witness :
  exists r w',
    AudioProcessing.processingAudio "missing.mp3" (device ios ∅) = (Return r, w') /\
    ProcessingResult.success r = false /\
    exists msg, ProcessingResult.error r = Some msg /\ msg <> "".
Proof.
  pose proof (proj1 (processing_never_rejects (device ios ∅)) "missing.mp3") as H.
  cbn [device os is_web] in H.
  destruct (AudioProcessing.nativeProcessAudio_try "missing.mp3" _)
    as [[r|e] w'] eqn:Htry.
  - vm_compute in Htry. discriminate Htry.
  - destruct H as (r & log & Hrun & Hfail & _ & _ & Herr).
    exists r. eexists. split; [exact Hrun|]. split; [exact Hfail|exact Herr].
Defined.

(** ** The audio player *)

Lemma alerts_of_app (t l : list Event) :
  alerts_of (t ++ l) = (alerts_of t ++ alerts_of l)%list.
Proof.
  induction t as [|ev t IH]; [reflexivity|].
  destruct ev; cbn [alerts_of app]; rewrite IH; reflexivity.
Qed.

Lemma wp_silent {A} (m : M World A) (Q : A -> World -> Prop) E w :
  silent m ->
  (forall a w', alerts_of (trace w') = alerts_of (trace w) -> Q a w') ->
  (forall e w', alerts_of (trace w') = alerts_of (trace w) -> E e w') ->
  wp m Q E w.
Proof. intros Hm HQ HE. exact (wp_mono _ _ _ _ _ _ (Hm w) HQ HE). Qed.

Lemma silent_bind {A B} (m : M World A) (k : A -> M World B) :
  silent m -> (forall a, silent (k a)) -> silent (bind m k).
Proof.
  intros Hm Hk w. apply wp_bind. apply (wp_silent m); trivial.
  intros a w' Hw'. apply (wp_silent (k a)); trivial; congruence.
Qed.

Ltac quiet :=
  wsimpl; rewrite ?alerts_of_app; cbn [alerts_of]; rewrite ?app_nil_r;
  trivial.

Ltac silent_steps :=
  repeat (wp_auto;
          try lazymatch goal with
              | |- wp (match ?x with _ => _ end) _ _ _ => destruct x
              end);
  quiet.

Lemma silent_stopAsync sound : silent (Audio.stopAsync sound).
Proof. intros w. unfold Audio.stopAsync, Audio.on_loaded. silent_steps. Qed.

Lemma silent_setPositionAsync sound millis :
  silent (Audio.setPositionAsync sound millis).
Proof. intros w. unfold Audio.setPositionAsync, Audio.on_loaded. silent_steps. Qed.

Lemma silent_unloadAsync sound : silent (Audio.unloadAsync sound).
Proof. intros w. unfold Audio.unloadAsync. silent_steps. Qed.

Lemma silent_console_error msg : silent (console_error msg).
Proof. intros w. unfold console_error. silent_steps. Qed.

(** ** app/(tabs)/editor.tsx *)

Section EditorFacts.
Import EditorScreen.

(** Stopping one sound never throws, leaves the state of the screen alone
    and shows no alert. *)
Lemma wp_stopSound sound msg (Q : unit -> State * World -> Prop) E s w :
  (forall w', alerts_of (trace w') = alerts_of (trace w) -> Q tt (s, w')) ->
  wp (stopSound sound msg) Q E (s, w).
Proof.
  intros HQ. destruct sound as [n|]; [|apply wp_ret, HQ; reflexivity].
  assert (Hlog : forall w', alerts_of (trace w') = alerts_of (trace w) ->
            wp (liftW (console_error msg)) Q E (s, w')).
  { intros w' Hw'. apply wp_liftW. unfold console_error. apply wp_emit.
    apply HQ. quiet. }
  unfold stopSound. apply wp_try_catch, wp_bind, wp_liftW.
  apply (wp_silent _ _ _ _ (silent_stopAsync n)); cbn [fst snd].
  - intros [] w1 H1. apply wp_liftW.
    apply (wp_silent _ _ _ _ (silent_setPositionAsync n 0)); cbn [fst snd].
    + intros [] w2 H2. apply HQ. congruence.
    + intros ? w2 H2. apply Hlog. congruence.
  - intros ? w1 H1. apply Hlog. exact H1.
Qed.

(** The state of the screen once playback was stopped. *)
Lemma stopAllPlayback_run st s w :
  exists w',
    stopAllPlayback st (s, w) =
      (Return tt,
       (mkState (isProcessing s) (isProcessed s) (vocalTrack s)
          (instrumentalTrack s) (vocalVolume s) (instrumentalVolume s)
          (originalSound s) (vocalSound s) (instrumentalSound s) false
          (playbackMode s) (duration s) 0, w')) /\
    alerts_of (trace w') = alerts_of (trace w).
Proof.
  set (Q := fun (_ : unit) (sw : State * World) => exists w',
              sw = (mkState (isProcessing s) (isProcessed s) (vocalTrack s)
                      (instrumentalTrack s) (vocalVolume s)
                      (instrumentalVolume s) (originalSound s) (vocalSound s)
                      (instrumentalSound s) false (playbackMode s)
                      (duration s) 0, w') /\
              alerts_of (trace w') = alerts_of (trace w)).
  assert (H : wp (stopAllPlayback st) Q (fun _ _ => False) (s, w)).
  { unfold stopAllPlayback, setIsPlaying, setPosition.
    apply wp_bind, wp_setState. cbn [fst snd].
    apply wp_bind, wp_stopSound. intros w1 H1.
    apply wp_bind, wp_stopSound. intros w2 H2.
    apply wp_bind, wp_stopSound. intros w3 H3.
    apply wp_setState. exists w3. split; [reflexivity|congruence]. }
  destruct (wp_returns _ _ _ H) as ([] & sw & Hrun & w' & -> & Hq).
  exists w'. split; [exact Hrun|exact Hq].
Qed.

End EditorFacts.

Ltac esimpl :=
  cbn [fst snd EditorScreen.isProcessing EditorScreen.isProcessed
       EditorScreen.vocalTrack EditorScreen.instrumentalTrack
       EditorScreen.vocalVolume EditorScreen.instrumentalVolume
       EditorScreen.originalSound EditorScreen.vocalSound
       EditorScreen.instrumentalSound EditorScreen.isPlaying
       EditorScreen.playbackMode EditorScreen.duration EditorScreen.position]
    in *.

(** C5.  Let [w1] be the host once [processAudio] has set [isProcessing] and
    stopped the playback, which shows no alert.  If the call of
    [processingAudio] on [w1] fails, by a result that is not a success or by
    a throw, and leaves the host [w2], then [processAudio] returns; the
    final host is [w2] with the events [l] added, among them exactly one
    alert, so [processingAudio] ran once and was not tried again; and in the
    final state [vocalTrack], [instrumentalTrack], [isProcessed] and
    [playbackMode] are as they were and [isProcessing] is false. *)
Theorem processAudio_failure
    (processingAudio : string -> M World ProcessingResult.t)
    (c : Ascii.ascii) (rest : string) (st : EditorScreen.State) (w : World) :
  let audioUri := String c rest in
  let w1 := snd (snd ((EditorScreen.setIsProcessing true ;;
                       EditorScreen.stopAllPlayback st) (st, w))) in
  forall o w2,
    processingAudio audioUri w1 = (o, w2) ->
    failed o ->
    exists sf l,
      EditorScreen.processAudio processingAudio (Some audioUri) st (st, w) =
        (Return tt, (sf, set_trace (fun t => (t ++ l)%list) w2)) /\
      EditorScreen.vocalTrack sf = EditorScreen.vocalTrack st /\
      EditorScreen.instrumentalTrack sf = EditorScreen.instrumentalTrack st /\
      EditorScreen.isProcessed sf = EditorScreen.isProcessed st /\
      EditorScreen.playbackMode sf = EditorScreen.playbackMode st /\
      EditorScreen.isProcessing sf = false /\
      (exists title message, alerts_of l = [(title, message)]) /\
      alerts_of (trace w1) = alerts_of (trace w).
Proof.
  intros audioUri w1 o w2 Hrun Hfailed. subst audioUri.
  destruct (stopAllPlayback_run st
              (EditorScreen.mkState true (EditorScreen.isProcessed st)
                 (EditorScreen.vocalTrack st) (EditorScreen.instrumentalTrack st)
                 (EditorScreen.vocalVolume st) (EditorScreen.instrumentalVolume st)
                 (EditorScreen.originalSound st) (EditorScreen.vocalSound st)
                 (EditorScreen.instrumentalSound st) (EditorScreen.isPlaying st)
                 (EditorScreen.playbackMode st) (EditorScreen.duration st)
                 (EditorScreen.position st)) w) as (w' & Hstop & Hquiet).
  esimpl.
  assert (Hw1 : w1 = w').
  { subst w1. unfold bind, EditorScreen.setIsProcessing, setState.
    esimpl. rewrite Hstop. reflexivity. }
  rewrite Hw1 in *. clear w1 Hw1.
  unfold EditorScreen.processAudio, try_catch_finally, try_catch, bind,
    EditorScreen.setIsProcessing, setState.
  esimpl. rewrite Hstop.
  unfold liftW at 1. esimpl. rewrite Hrun.
  destruct o as [r|e].
  - cbn in Hfailed. rewrite Hfailed.
    eexists _, [AlertShown "Processing Failed" _].
    cbn. repeat split; eauto.
  - eexists _, [ConsoleError "Failed to process audio";
                AlertShown "Error" "Failed to process audio. Please try again."].
    cbn. rewrite set_trace_app. repeat split; eauto.
Qed.

(** On an iOS device without the audio file, [processingAudio] returns a
    failure: the editor keeps its state and shows one alert. *)
Lemma processAudio_failure_witness :
  exists sf wf,
    EditorScreen.processAudio AudioProcessing.processingAudio
      (Some "missing.mp3") EditorScreen.initialState
      (EditorScreen.initialState, device ios ∅) = (Return tt, (sf, wf)) /\
    EditorScreen.vocalTrack sf = None /\
    EditorScreen.instrumentalTrack sf = None /\
    EditorScreen.isProcessed sf = false /\
    EditorScreen.playbackMode sf = EditorScreen.original /\
    EditorScreen.isProcessing sf = false /\
    exists title message, alerts_of (trace wf) = [(title, message)].
Proof.
  edestruct (processAudio_failure AudioProcessing.processingAudio
               "m"%char "issing.mp3" EditorScreen.initialState (device ios ∅))
    as (sf & l & Hrun & Hv & Hi & Hp & Hm & Hproc & (title & message & Hal) & _).
  - apply surjective_pairing.
  - vm_compute. reflexivity.
  - exists sf. eexists. split; [exact Hrun|].
    repeat (split; [assumption|]).
    exists title, message. wsimpl. rewrite alerts_of_app, Hal.
    vm_compute. reflexivity.
Defined.

(** ** app/(tabs)/export.tsx *)

(** C7.  When a track is missing, [exportAudio] shows one alert and returns;
    the state of the screen is untouched and the host is as it was but for
    the alert, whatever [mergeAudioTracks] would do, so it is not called.
    When both tracks are there and [mergeAudioTracks] returns a result that
    is not a success, leaving the host [w2], [exportAudio] returns,
    [exportedUri] is as it was, [isMerging] is false, and the final host is
    [w2] with one alert added: the merge ran once and was not tried again. *)
Theorem exportAudio_failure
    (mergeAudioTracks : string -> string -> R -> R -> M World MergeResult.t)
    (parseFloat : string -> R)
    (p : ExportScreen.Params) (st : ExportScreen.State) (w : World) :
  (ExportScreen.hasRequiredParams p = false ->
   ExportScreen.exportAudio mergeAudioTracks parseFloat p (st, w) =
     (Return tt,
      (st, set_trace
             (fun t => (t ++ [AlertShown "Error"
                "Missing audio tracks. Please go back to the editor."])%list) w)))
  /\
  (forall vocal instrumental r w2,
     ExportScreen.hasRequiredParams p = true ->
     ExportScreen.vocalTrack p = Some vocal ->
     ExportScreen.instrumentalTrack p = Some instrumental ->
     mergeAudioTracks vocal instrumental
       (ExportScreen.vocalVol parseFloat p)
       (ExportScreen.instrumentalVol parseFloat p) w = (Return r, w2) ->
     MergeResult.success r = false ->
     ExportScreen.exportAudio mergeAudioTracks parseFloat p (st, w) =
       (Return tt,
        (ExportScreen.mkState false (ExportScreen.exportedUri st)
           (ExportScreen.exportName st),
         set_trace
           (fun t => (t ++ [AlertShown "Export Failed"
              (or_else (MergeResult.error r) "Failed to export audio.")])%list)
           w2))).
Proof.
  unfold ExportScreen.hasRequiredParams, ExportScreen.exportAudio.
  split.
  - intros Hmissing.
    destruct (ExportScreen.vocalTrack p) as [[|c1 v]|];
      destruct (ExportScreen.instrumentalTrack p) as [[|c2 i]|];
      try discriminate; reflexivity.
  - intros vocal instrumental r w2 Hboth Hv Hi Hrun Hfail.
    rewrite Hv, Hi in *.
    destruct vocal as [|c1 v]; [discriminate|].
    destruct instrumental as [|c2 i]; [discriminate|].
    unfold try_catch_finally, try_catch, bind, ExportScreen.setIsMerging,
      setState.
    cbn [fst snd]. unfold liftW at 1. cbn [fst snd].
    rewrite Hrun, Hfail. reflexivity.
Qed.

(** On an iOS device: without tracks nothing but an alert happens; with
    tracks whose vocal file does not exist the merge fails and the screen
    only shows its error. *)
Lemma exportAudio_failure_witness :
  ExportScreen.exportAudio AudioProcessing.mergeAudioTracks (fun _ => 1%R)
    (ExportScreen.mkParams None (Some "i.mp3") None None)
    (ExportScreen.initialState, device ios ∅) =
    (Return tt,
     (ExportScreen.initialState,
      set_trace
        (fun t => (t ++ [AlertShown "Error"
           "Missing audio tracks. Please go back to the editor."])%list)
        (device ios ∅)))
  /\
  exists wf,
    ExportScreen.exportAudio AudioProcessing.mergeAudioTracks (fun _ => 1%R)
      (ExportScreen.mkParams (Some "v.mp3") (Some "i.mp3") None None)
      (ExportScreen.initialState, device ios ∅) =
      (Return tt, (ExportScreen.initialState, wf)) /\
    alerts_of (trace wf) =
      [("Export Failed", "Failed to merge audio tracks on device.")].
Proof.
  split.
  - apply (proj1 (exportAudio_failure AudioProcessing.mergeAudioTracks
                    (fun _ => 1%R)
                    (ExportScreen.mkParams None (Some "i.mp3") None None)
                    ExportScreen.initialState (device ios ∅))).
    reflexivity.
  - eexists. split.
    + eapply (proj2 (exportAudio_failure AudioProcessing.mergeAudioTracks
                       (fun _ => 1%R)
                       (ExportScreen.mkParams (Some "v.mp3") (Some "i.mp3")
                          None None)
                       ExportScreen.initialState (device ios ∅))).
      * reflexivity.
      * reflexivity.
      * reflexivity.
      * vm_compute. reflexivity.
      * reflexivity.
    + vm_compute. reflexivity.
Defined.

(** ** app/(tabs)/upload.tsx *)

(** C10 (as the code has it).  When the picker returns a choice that is not
    canceled and whose first asset is larger than [50 * 1024 * 1024] bytes,
    and unloading the sound of the screen (if there is one) does not reject,
    [pickAudio] returns after one alert.  [audioUri] is as it was and
    [fileName] is the name of the rejected asset; but the sound of the screen
    was unloaded before the size was looked at: [sound] is null and, if there
    was a sound, [isPlaying] is false. *)
Theorem pickAudio_too_large (st : UploadScreen.State) (w w1 w2 : World)
    (result : DocumentPickerResult) (asset : Asset) (others : list Asset)
    (size : N) :
  DocumentPicker.getDocumentAsync w = (Return result, w1) ->
  canceled result = false ->
  assets result = asset :: others ->
  asset_size asset = Some size ->
  (50 * 1024 * 1024 < size)%N ->
  match UploadScreen.sound st with
  | Some s => Audio.unloadAsync s w1 = (Return tt, w2)
  | None => w2 = w1
  end ->
  UploadScreen.pickAudio st (st, w) =
    (Return tt,
     (UploadScreen.mkState (UploadScreen.audioUri st) (Some (asset_name asset))
        None
        (match UploadScreen.sound st with
         | Some _ => false
         | None => UploadScreen.isPlaying st
         end)
        (UploadScreen.duration st) (UploadScreen.position st),
      set_trace
        (fun t => (t ++ [AlertShown "File too large"
           "Please select an audio file smaller than 50MB"])%list) w2)).
Proof.
  intros Hpick Hcanceled Hassets Hsize Hlarge Hunload.
  assert (Htoo : UploadScreen.too_large asset = true).
  { unfold UploadScreen.too_large, UploadScreen.SIZE_LIMIT. rewrite Hsize.
    apply andb_true_intro. split.
    - apply negb_true_iff, N.eqb_neq. lia.
    - apply N.ltb_lt. exact Hlarge. }
  unfold UploadScreen.pickAudio, try_catch, bind.
  unfold liftW at 1. cbn [fst snd]. rewrite Hpick, Hcanceled.
  destruct (UploadScreen.sound st) as [s|] eqn:Hsound.
  - unfold liftW at 1. cbn [fst snd]. rewrite Hunload.
    unfold UploadScreen.setSound, UploadScreen.setIsPlaying, setState.
    cbn [fst snd]. rewrite Hassets.
    unfold UploadScreen.setFileName, setState. cbn [fst snd]. rewrite Htoo.
    reflexivity.
  - subst w2. unfold ret at 1. rewrite Hassets.
    unfold UploadScreen.setFileName, setState. cbn [fst snd]. rewrite Htoo.
    cbn. rewrite Hsound. destruct st; reflexivity.
Qed.

(** The screen of [upload_state] and the host of [upload_world]: the file
    name is replaced, the old audio stays, the sound is gone. *)
Lemma pickAudio_too_large_witness :
  exists wf,
    UploadScreen.pickAudio upload_state (upload_state, upload_world) =
      (Return tt,
       (UploadScreen.mkState (Some "cache/old.mp3") (Some "huge.wav") None
          false 3 0, wf)) /\
    alerts_of (trace wf) =
      [("File too large", "Please select an audio file smaller than 50MB")].
Proof.
  eexists. split.
  - eapply (pickAudio_too_large upload_state upload_world _ _ _
              (mkAsset "picked/huge.wav" "huge.wav" (Some 60000000%N)) []
              60000000%N).
    + vm_compute. reflexivity.
    + reflexivity.
    + reflexivity.
    + reflexivity.
    + vm_compute. reflexivity.
    + vm_compute. reflexivity.
  - vm_compute. reflexivity.
Defined.

(** C10 as stated fails: the rejected pick does not leave the loaded sound
    as it was.  Sound 0 was loaded and held by the screen; after the pick the
    screen holds no sound and sound 0 is unloaded, while [audioUri] still
    names the old audio. *)
Lemma pickAudio_counterexample :
  let '(r, (sf, wf)) :=
    UploadScreen.pickAudio upload_state (upload_state, upload_world) in
  r = Return tt /\
  UploadScreen.sound upload_state = Some 0%nat /\
  UploadScreen.sound sf = None /\
  isLoaded <$> (sounds upload_world !! 0%nat) = Some true /\
  isLoaded <$> (sounds wf !! 0%nat) = Some false /\
  UploadScreen.audioUri sf = UploadScreen.audioUri upload_state /\
  UploadScreen.fileName sf = Some "huge.wav".
Proof. vm_compute. repeat split. Qed.

(** ** components/AudioWaveform.tsx *)

Section WaveformFacts.
Import AudioWaveform.
Local Open Scope R_scope.

(** A loop that pushes one value per turn builds the list of the values. *)
Lemma push_loop {A} (f : nat -> A) (turns : list nat) (heights : list A) :
  fold_left (fun heights i => (heights ++ [f i])%list) turns heights =
  (heights ++ List.map f turns)%list.
Proof.
  revert heights. induction turns as [|i turns IH]; intros heights; cbn.
  - rewrite app_nil_r. reflexivity.
  - rewrite IH, <- app_assoc. reflexivity.
Qed.

Lemma bar_bounds (i : nat) (random : R) :
  0 <= random < 1 -> 5 <= bar i random <= MAX_BAR_HEIGHT.
Proof.
  intros [Hlo Hhi]. unfold bar, MAX_BAR_HEIGHT. split.
  - apply Rmax_l.
  - apply Rmax_lub; [lra|].
    pose proof (SIN_bound (INR i / INR BAR_COUNT * PI)) as [_ Hsin].
    set (bellCurve := sin (INR i / INR BAR_COUNT * PI)) in *.
    assert (Hrv : 0 <= 80 * (0.1 + random * 0.9) <= 80) by lra.
    nra.
Qed.

End WaveformFacts.

(** C8.  Whatever values in [0, 1) [Math.random] returns, the waveform has
    exactly [BAR_COUNT] = 50 bars and every bar height lies in
    [5, MAX_BAR_HEIGHT] = [5, 80]. *)
Theorem generateRandomBars_bounds (Math_random : nat -> R) :
  (forall i, (0 <= Math_random i < 1)%R) ->
  length (AudioWaveform.generateRandomBars Math_random) = 50%nat /\
  AudioWaveform.BAR_COUNT = 50%nat /\
  AudioWaveform.MAX_BAR_HEIGHT = 80%R /\
  Forall (fun height => (5 <= height <= 80)%R)
    (AudioWaveform.generateRandomBars Math_random).
Proof.
  intros Hrandom. unfold AudioWaveform.generateRandomBars.
  rewrite push_loop. cbn [app].
  split; [|split; [reflexivity|split; [reflexivity|]]].
  - rewrite length_map, length_seq. reflexivity.
  - apply List.Forall_forall. intros height Hin.
    apply in_map_iff in Hin. destruct Hin as (i & <- & _).
    apply (bar_bounds i), Hrandom.
Qed.

(** A generator that always returns 0: fifty bars of the minimum height. *)
Lemma generateRandomBars_bounds_witness :
  length (AudioWaveform.generateRandomBars (fun _ => 0%R)) = 50%nat /\
  Forall (fun height => (5 <= height <= 80)%R)
    (AudioWaveform.generateRandomBars (fun _ => 0%R)).
Proof.
  destruct (generateRandomBars_bounds (fun _ => 0%R)) as (Hlen & _ & _ & Hall).
  - intros _. lra.
  - split; [exact Hlen|exact Hall].
Defined.

(** ** JavaScript numbers *)

Section FloatOrder.
Import JsNumber.















End FloatOrder.


Section Clamp.
Import JsNumber.






End Clamp.

(** ** components/Slider.tsx *)

(** The model at the volume slider of the editor ([0] to [2], step [0.01]):
    a position of 50 percent is the value 1, and back. *)
Example calculateValue_at_the_middle :
  let p := Slider.mkSliderProps 1 0 2 (Some 0.01%float) in
  Slider.calculateValue p 50 = 1%float /\
  Slider.calculatePosition p 1 = 50%float.
Proof. vm_compute. split; reflexivity. Qed.

(** [Math.round] on halves, negative numbers and large numbers. *)
Example Math_round_examples :
  JsNumber.Math_round 2.5 = 3%float /\
  JsNumber.Math_round (-2.5) = (-2)%float /\
  JsNumber.Math_round (-0.2) = (-0)%float /\
  JsNumber.Math_round 0.49999999999999994 = 0%float /\
  JsNumber.Math_round 4503599627370495.5 = 4503599627370496%float /\
  JsNumber.Math_round infinity = infinity.
Proof. vm_compute. repeat split; reflexivity. Qed.




(** * Further properties of the code *)

(** ** components/Slider.tsx *)



(** ** components/AudioWaveform.tsx *)

Section WaveformMore.
Import AudioWaveform.
Local Open Scope R_scope.

Lemma barColor_primary (index : nat) (position duration : R) :
  barColor false index position duration = Colors.waveformPrimary <->
  INR index <= playbackPosition position duration.
Proof.
  unfold barColor.
  destruct (Rle_dec (INR index) (playbackPosition position duration));
    split; intros H; try reflexivity; try assumption; try contradiction.
  discriminate H.
Qed.

End WaveformMore.

(** While nothing is recorded the played part of the waveform is a prefix:
    when a bar has the colour of the played part, so has every bar before
    it. *)
Theorem played_bars_form_a_prefix (position duration : R) (i j : nat) :
  (i <= j)%nat ->
  AudioWaveform.barColor false j position duration = Colors.waveformPrimary ->
  AudioWaveform.barColor false i position duration = Colors.waveformPrimary.
Proof.
  intros Hij Hj. apply barColor_primary. apply barColor_primary in Hj.
  apply (Rle_trans _ (INR j)); [apply le_INR, Hij|exact Hj].
Qed.

Lemma played_bars_form_a_prefix_witness :
  AudioWaveform.barColor false 10 30 60 = Colors.waveformPrimary.
Proof.
  apply (played_bars_form_a_prefix 30 60 10 25); [lia|].
  apply barColor_primary. unfold AudioWaveform.playbackPosition.
  destruct (Rlt_dec 0 60) as [_|Hn]; [|lra].
  unfold AudioWaveform.BAR_COUNT. rewrite !INR_IZR_INZ.
  change (Z.of_nat 25) with 25%Z. change (Z.of_nat 50) with 50%Z. lra.
Defined.

(** The ends of the playback.  Without a duration only the first bar counts
    as played, wherever the position is; with a duration, at position 0 only
    the first bar is played, and at the end of the audio every bar of the
    waveform is; while recording every bar has the colour of the played
    part. *)
Theorem played_bars_at_the_ends (position duration : R) (index : nat) :
  ((duration <= 0)%R ->
   (AudioWaveform.barColor false index position duration
    = Colors.waveformPrimary <-> index = 0%nat)) /\
  ((0 < duration)%R ->
   (AudioWaveform.barColor false index 0 duration
    = Colors.waveformPrimary <-> index = 0%nat) /\
   ((index <= AudioWaveform.BAR_COUNT)%nat ->
    AudioWaveform.barColor false index duration duration
    = Colors.waveformPrimary)) /\
  AudioWaveform.barColor true index position duration = Colors.waveformPrimary.
Proof.
  assert (Hzero : forall n : nat, (INR n <= 0)%R <-> n = 0%nat).
  { intros n. split.
    - intros Hn. destruct n as [|n]; [reflexivity|].
      pose proof (lt_0_INR (S n) ltac:(lia)). lra.
    - intros ->. cbn. lra. }
  split; [|split; [|reflexivity]].
  - intros Hd. rewrite barColor_primary. unfold AudioWaveform.playbackPosition.
    destruct (Rlt_dec 0 duration) as [Hpos|_]; [lra|]. apply Hzero.
  - intros Hd. split.
    + rewrite barColor_primary. unfold AudioWaveform.playbackPosition.
      destruct (Rlt_dec 0 duration) as [_|Hn]; [|lra].
      replace (0 / duration * INR AudioWaveform.BAR_COUNT)%R with 0%R
        by (field; lra).
      apply Hzero.
    + intros Hi. apply barColor_primary.
      unfold AudioWaveform.playbackPosition.
      destruct (Rlt_dec 0 duration) as [_|Hn]; [|lra].
      replace (duration / duration * INR AudioWaveform.BAR_COUNT)%R
        with (INR AudioWaveform.BAR_COUNT) by (field; lra).
      apply le_INR, Hi.
Qed.

Lemma played_bars_at_the_ends_witness :
  AudioWaveform.barColor false 49 180 180 = Colors.waveformPrimary /\
  AudioWaveform.barColor false 1 0 180 <> Colors.waveformPrimary.
Proof.
  destruct (played_bars_at_the_ends 0 180 49) as (_ & Hend & _).
  destruct (played_bars_at_the_ends 0 180 1) as (_ & Hstart & _).
  split.
  - apply Hend; [lra|]. unfold AudioWaveform.BAR_COUNT. lia.
  - intros H. apply Hstart in H; [discriminate|lra].
Defined.

(** ** [formatTime] *)

Section FormatMore.
Import Format.
Local Open Scope R_scope.

(** The seconds of [formatTime], padded to two digits. *)
Lemma two_digits (s : Z) :
  (0 <= s < 60)%Z ->
  String.length ((if (s <? 10)%Z then "0" else "") +:+ pretty s) = 2%nat.
Proof.
  intros Hs.
  assert (Hnat : forall n : nat, (n < 60)%nat ->
            String.length ((if (Z.of_nat n <? 10)%Z then "0" else "")
                           +:+ pretty (Z.of_nat n)) = 2%nat).
  { intros n Hn.
    do 60 (destruct n as [|n]; [vm_compute; reflexivity|]). lia. }
  specialize (Hnat (Z.to_nat s) ltac:(lia)).
  rewrite Z2Nat.id in Hnat by lia. exact Hnat.
Qed.

Lemma trunc_nonneg (x : R) : 0 <= x -> trunc x = Int_part x.
Proof.
  intros Hx. unfold trunc. destruct (Rlt_dec x 0) as [Hneg|_]; [lra|reflexivity].
Qed.

End FormatMore.

(** For a time from 0 up to 2^53 seconds, [formatTime] prints [m:ss]:
    whole minutes [m], then exactly two digits of seconds [s] below 60,
    where [60 * m + s] is the time rounded down to whole seconds. *)
Theorem formatTime_minutes_seconds (seconds : R) :
  (0 <= seconds)%R ->
  (seconds < 9007199254740992)%R ->
  exists (m s : Z) (ss : string),
    (0 <= m)%Z /\ (0 <= s < 60)%Z /\
    (IZR (60 * m + s) <= seconds < IZR (60 * m + s) + 1)%R /\
    Format.formatTime seconds = pretty m +:+ ":" +:+ ss /\
    ss = (if (s <? 10)%Z then "0" else "") +:+ pretty s /\
    String.length ss = 2%nat.
Proof.
  intros Hsec _. unfold Format.formatTime, Format.Math_floor, Format.rem.
  rewrite trunc_nonneg
    by (apply Rmult_le_pos; [exact Hsec|apply Rlt_le, Rinv_0_lt_compat; lra]).
  set (m := Int_part (seconds / 60)).
  destruct (base_Int_part (seconds / 60)) as [Hm1 Hm2]. fold m in Hm1, Hm2.
  assert (Hm3 : (IZR m * 60 <= seconds < IZR m * 60 + 60)%R).
  { replace seconds with (seconds / 60 * 60)%R at 2 3 by (field; lra). lra. }
  set (s := Int_part (seconds - 60 * IZR m)).
  destruct (base_Int_part (seconds - 60 * IZR m)) as [Hs1 Hs2].
  fold s in Hs1, Hs2.
  assert (Hm : (0 <= m)%Z).
  { apply Z.lt_succ_r, lt_IZR. rewrite succ_IZR. lra. }
  assert (Hs : (0 <= s < 60)%Z).
  { split.
    - apply Z.lt_succ_r, lt_IZR. rewrite succ_IZR. lra.
    - apply lt_IZR. lra. }
  exists m, s, ((if (s <? 10)%Z then "0" else "") +:+ pretty s).
  repeat split; try lia.
  - rewrite plus_IZR, mult_IZR. lra.
  - rewrite plus_IZR, mult_IZR. lra.
  - apply two_digits, Hs.
Qed.

Lemma formatTime_minutes_seconds_witness :
  exists m s ss,
    (IZR (60 * m + s) <= 65.5 < IZR (60 * m + s) + 1)%R /\
    Format.formatTime 65.5 = pretty m +:+ ":" +:+ ss /\ String.length ss = 2%nat.
Proof.
  destruct (formatTime_minutes_seconds 65.5)
    as (m & s & ss & _ & _ & Hfloor & Hfmt & _ & Hlen); [lra|lra|].
  exists m, s, ss. repeat split; trivial; apply Hfloor.
Defined.

(** ** utils/fileSystem.ts and utils/audioProcessing.ts *)

(** A host call rejected although the schedule was empty at the start. *)
Ltac calm_ne :=
  let Hc := fresh in
  intros Hc;
  repeat match goal with
         | H : ?P -> _, H' : ?P |- _ => specialize (H H')
         end;
  congruence.

Lemma wp_conj {S A} (m : M S A) (Q1 Q2 : A -> S -> Prop)
    (E1 E2 : JsError -> S -> Prop) s :
  wp m Q1 E1 s -> wp m Q2 E2 s ->
  wp m (fun a s' => Q1 a s' /\ Q2 a s') (fun e s' => E1 e s' /\ E2 e s') s.
Proof. unfold wp. destruct (m s) as [[a|e] s']; auto. Qed.

Lemma wp_always {S A} (m : M S A) s : wp m (fun _ _ => True) (fun _ _ => True) s.
Proof. unfold wp. destruct (m s) as [[a|e] s']; trivial. Qed.

Section UtilitiesMore.
Import FileSystemUtils AudioProcessing.

(** What the native separation leaves alone, whatever the host does. *)
Lemma nativeProcessAudio_frame uri w :
  is_web (os w) = false ->
  wp (nativeProcessAudio uri)
    (fun _ w' =>
       settled w w' /\ now w' = (now w + 3000)%N /\
       files w' !! uri = files w !! uri /\
       forall path,
         path <> tempDirAt w (now w + 3000) +:+ "vocals.mp3" ->
         path <> tempDirAt w (now w + 3000) +:+ "instrumental.mp3" ->
         files w' !! path = files w !! path)
    (fun _ _ => False) w.
Proof.
  intros Hos.
  set (Q := fun (_ : ProcessingResult.t) (w' : World) => _).
  unfold nativeProcessAudio, nativeProcessAudio_try, console_error.
  wp_auto. apply wp_createTempDirectory; [exact Hos | |].
  - intros w1 (Hos1 & Hcd1 & Hfiles1 & Hnow1 & [l1 Htr1] & Hcalm1).
    wsimpl. unfold tempDirAt at 1 2. wsimpl.
    fold (tempDirAt w (now w + 3000)).
    set (tempDir := tempDirAt w (now w + 3000)) in *.
    wp_auto; subst Q; cbv beta; unfold settled; wsimpl.
    all: rewrite ?Hfiles1 in *.
    all: repeat split; trivial; try solve [intuition auto].
    all: intros; repeat (rewrite lookup_insert_ne by congruence); trivial.
    all: try (rewrite (lookup_insert_same _ _ _ _ H0) in H2; injection H2 as <-).
    all: rewrite H0; repeat apply lookup_insert_same; exact H0.
  - intros e w1 (Hos1 & Hcd1 & Hfiles1 & Hnow1 & [l1 Htr1] & Hcalm1) Hf.
    wp_auto; subst Q; cbv beta; unfold settled; wsimpl.
    rewrite Hfiles1. repeat split; trivial; try (intros Hc; contradiction).
Qed.

(** What the native merge leaves alone, whatever the host does. *)
Lemma nativeMergeAudio_frame vocalUri instrumentalUri vocalVolume
    instrumentalVolume w :
  wp (nativeMergeAudio vocalUri instrumentalUri vocalVolume instrumentalVolume)
    (fun _ w' =>
       settled w w' /\ now w' = (now w + 2000)%N /\
       files w' !! vocalUri = files w !! vocalUri /\
       forall path,
         path <> cacheDirectory w +:+ "mixed_" +:+ pretty (now w + 2000)%N
                 +:+ ".mp3" ->
         files w' !! path = files w !! path)
    (fun _ _ => False) w.
Proof.
  set (Q := fun (_ : MergeResult.t) (w' : World) => _).
  unfold nativeMergeAudio, nativeMergeAudio_try, Date_now, console_error.
  wp_auto; subst Q; cbv beta; unfold settled; wsimpl.
  all: repeat split; trivial; try solve [intuition auto].
  all: intros; repeat (rewrite lookup_insert_ne by congruence); trivial.
  rewrite H0. apply lookup_insert_same, H0.
Qed.

End UtilitiesMore.

(** The separation never harms what is on disk: on every platform and
    whatever the host does, after [processingAudio] the input file is as it
    was, and so is every file other than the two output paths. *)
Theorem processingAudio_keeps_files (audioUri : string) (w : World) :
  exists r w',
    AudioProcessing.processingAudio audioUri w = (Return r, w') /\
    files w' !! audioUri = files w !! audioUri /\
    forall path,
      path <> tempDirAt w (now w + 3000) +:+ "vocals.mp3" ->
      path <> tempDirAt w (now w + 3000) +:+ "instrumental.mp3" ->
      files w' !! path = files w !! path.
Proof.
  unfold AudioProcessing.processingAudio, Platform_OS, bind, gets.
  destruct (is_web (os w)) eqn:Hos.
  - rewrite webProcessAudio_run. eexists _, _. split; [reflexivity|].
    split; [reflexivity|]. intros; reflexivity.
  - destruct (wp_returns _ _ _ (nativeProcessAudio_frame audioUri w Hos))
      as (r & w' & Hrun & _ & _ & Huri & Hrest).
    exists r, w'. auto.
Qed.

(** The merge never harms what is on disk either: after [mergeAudioTracks]
    the vocal file is as it was, and so is every file other than the output
    path. *)
Theorem mergeAudioTracks_keeps_files (vocalUri instrumentalUri : string)
    (vocalVolume instrumentalVolume : R) (w : World) :
  exists r w',
    AudioProcessing.mergeAudioTracks vocalUri instrumentalUri vocalVolume
      instrumentalVolume w = (Return r, w') /\
    files w' !! vocalUri = files w !! vocalUri /\
    forall path,
      path <> cacheDirectory w +:+ "mixed_" +:+ pretty (now w + 2000)%N
              +:+ ".mp3" ->
      files w' !! path = files w !! path.
Proof.
  unfold AudioProcessing.mergeAudioTracks, Platform_OS, bind, gets.
  destruct (is_web (os w)) eqn:Hos.
  - rewrite webMergeAudio_run. eexists _, _. split; [reflexivity|].
    split; [reflexivity|]. intros; reflexivity.
  - destruct (wp_returns _ _ _
                (nativeMergeAudio_frame vocalUri instrumentalUri vocalVolume
                   instrumentalVolume w))
      as (r & w' & Hrun & _ & _ & Hvocal & Hrest).
    exists r, w'. auto.
Qed.

(** Separating and then merging gives the input back.  On a native platform
    with a host that never fails on its own, when the input file exists, the
    separation succeeds, the merge of its two tracks succeeds, and the merged
    file holds exactly the bytes of the input, which is still in place. *)
Theorem separation_then_merge (audioUri : string)
    (vocalVolume instrumentalVolume : R) (w : World) (content : bytes) :
  is_web (os w) = false ->
  faults w = [] ->
  files w !! audioUri = Some content ->
  exists vocalTrack instrumentalTrack outputUri w1 w2,
    AudioProcessing.processingAudio audioUri w =
      (Return (ProcessingResult.mk true (Some vocalTrack)
                 (Some instrumentalTrack) None), w1) /\
    AudioProcessing.mergeAudioTracks vocalTrack instrumentalTrack vocalVolume
      instrumentalVolume w1 =
      (Return (MergeResult.mk true (Some outputUri) None), w2) /\
    files w2 !! outputUri = Some content /\
    files w2 !! audioUri = Some content.
Proof.
  intros Hos Hcalm Hin.
  destruct (wp_returns _ _ _
              (wp_mono _ _ _ _ _ _
                 (wp_conj _ _ _ _ _ _
                    (nativeProcessAudio_wp audioUri w Hos)
                    (nativeProcessAudio_frame audioUri w Hos))
                 (fun a s' H => H) (fun e s' H => proj1 H)))
    as (r & w1 & Hrun1 & [_ Hres] & (Hos1 & _ & Hcalm1) & _ & Huri1 & _).
  destruct Hres as [[-> (c & Hc & Hf1)] | [_ Hmiss]];
    [|rewrite (Hmiss Hcalm) in Hin; discriminate].
  assert (c = content) as -> by congruence.
  set (vocalTrack := tempDirAt w (now w + 3000) +:+ "vocals.mp3") in *.
  set (instrumentalTrack := tempDirAt w (now w + 3000) +:+ "instrumental.mp3") in *.
  assert (Hvocal1 : files w1 !! vocalTrack = Some content).
  { rewrite Hf1. apply lookup_insert_same, lookup_insert_eq. }
  rewrite <- Hos1 in Hos.
  destruct (wp_returns _ _ _
              (wp_mono _ _ _ _ _ _
                 (wp_conj _ _ _ _ _ _
                    (nativeMergeAudio_wp vocalTrack instrumentalTrack
                       vocalVolume instrumentalVolume w1)
                    (nativeMergeAudio_frame vocalTrack instrumentalTrack
                       vocalVolume instrumentalVolume w1))
                 (fun a s' H => H) (fun e s' H => proj1 H)))
    as (r2 & w2 & Hrun2 & [_ Hres2] & _ & _ & _ & Hrest2).
  destruct Hres2 as [(-> & (c2 & Hc2 & Hf2) & _) | (_ & _ & Hmiss2)];
    [|rewrite (Hmiss2 (Hcalm1 Hcalm)) in Hvocal1; discriminate].
  assert (c2 = content) as -> by congruence.
  eexists vocalTrack, instrumentalTrack, _, w1, w2.
  split.
  { unfold AudioProcessing.processingAudio, Platform_OS, bind, gets.
    rewrite <- Hos1, Hos. exact Hrun1. }
  split.
  { unfold AudioProcessing.mergeAudioTracks, Platform_OS, bind, gets.
    rewrite Hos. exact Hrun2. }
  split.
  - rewrite Hf2. apply lookup_insert_eq.
  - rewrite Hf2. apply lookup_insert_same. rewrite Huri1. exact Hin.
Qed.

Lemma separation_then_merge_witness :
  exists vocalTrack instrumentalTrack outputUri w1 w2,
    AudioProcessing.processingAudio "song.mp3"
      (device ios {[ "song.mp3" := song ]}) =
      (Return (ProcessingResult.mk true (Some vocalTrack)
                 (Some instrumentalTrack) None), w1) /\
    AudioProcessing.mergeAudioTracks vocalTrack instrumentalTrack 1 0.5 w1 =
      (Return (MergeResult.mk true (Some outputUri) None), w2) /\
    files w2 !! outputUri = Some song /\
    files w2 !! "song.mp3" = Some song.
Proof.
  apply (separation_then_merge "song.mp3" 1 0.5
           (device ios {[ "song.mp3" := song ]}) song); reflexivity.
Defined.

(** [createTempDirectory]: on web it returns the empty path and leaves the
    host alone.  On a native platform, when it returns, it returns the
    directory named after the clock, something is at that path, no file was
    changed and no directory was removed; it throws only when the host
    rejects a call, after logging the error, and then too no file changed. *)
Theorem createTempDirectory_spec (w : World) :
  if is_web (os w) then
    FileSystemUtils.createTempDirectory w = (Return "", w)
  else
    wp FileSystemUtils.createTempDirectory
      (fun tempDir w' =>
         tempDir = cacheDirectory w +:+ "temp_" +:+ pretty (now w) +:+ "/" /\
         (is_Some (files w' !! tempDir) \/ tempDir ∈ dirs w') /\
         files w' = files w /\ dirs w ⊆ dirs w')
      (fun e w' =>
         faults w <> [] /\ files w' = files w /\
         exists l, trace w' =
           (trace w ++ l ++ [ConsoleError "Error creating temp directory:"])%list)
      w.
Proof.
  destruct (is_web (os w)) eqn:Hos.
  - unfold FileSystemUtils.createTempDirectory, Platform_OS, bind, gets.
    rewrite Hos. reflexivity.
  - set (Q := fun (tempDir : string) (w' : World) => _).
    set (E := fun (e : JsError) (w' : World) => _).
    unfold FileSystemUtils.createTempDirectory, Platform_OS, Date_now,
      console_error.
    wp_auto. rewrite Hos. wp_auto.
    + set (tempDir := cacheDirectory w +:+ "temp_" +:+ pretty (now w) +:+ "/").
      destruct (bool_decide (is_Some (files w !! tempDir))
                || bool_decide (tempDir ∈ dirs w)) eqn:Hex;
        wp_auto; subst Q E; cbv beta; wsimpl.
      * repeat split; trivial.
        apply orb_true_iff in Hex.
        destruct Hex as [Hex|Hex]; apply bool_decide_eq_true in Hex; auto.
      * repeat split; trivial; [right|]; set_solver.
      * split; [calm_ne|]. split; [reflexivity|logged].
    + subst Q E; cbv beta; wsimpl.
      split; [assumption|]. split; [reflexivity|logged].
Qed.

Lemma createTempDirectory_spec_witness :
  exists w',
    FileSystemUtils.createTempDirectory (device ios ∅) =
      (Return "cache/temp_1000/", w') /\
    "cache/temp_1000/" ∈ dirs w'.
Proof.
  pose proof (createTempDirectory_spec (device ios ∅)) as H.
  cbn [device os is_web] in H.
  destruct (wp_run _ _ _ _ H)
    as [(dir & w' & Hrun & -> & Hthere & _)|(e & w' & _ & Hf & _)].
  - exists w'. split; [exact Hrun|].
    destruct Hthere as [[c Hc]|Hdir]; [|exact Hdir].
    vm_compute in Hrun. injection Hrun as <-. discriminate Hc.
  - exfalso. apply Hf. reflexivity.
Defined.

Section CleanupFacts.
Import FileSystemUtils.

Lemma exists_false (path : string) (w : World) :
  bool_decide (is_Some (files w !! path)) || bool_decide (path ∈ dirs w) = false ->
  absent path w.
Proof.
  intros H. apply orb_false_iff in H. destruct H as [Hf Hd].
  apply bool_decide_eq_false in Hf, Hd. split; [|exact Hd].
  destruct (files w !! path) eqn:E; [|reflexivity].
  exfalso. apply Hf. eauto.
Qed.

Lemma absent_weaken (path : string) (w w' : World) :
  files w' ⊆ files w -> dirs w' ⊆ dirs w -> absent path w -> absent path w'.
Proof.
  intros Hf Hd [Hnone Hnd]. split.
  - eapply lookup_weaken_None; eassumption.
  - set_solver.
Qed.

(** The loop of [cleanupTempFiles]: it only removes, and with a host that
    never fails on its own nothing is left at the listed paths. *)
Lemma cleanupTempFiles_loop_wp (paths : list string) (w : World) :
  wp (cleanupTempFiles_loop paths)
    (fun _ w' =>
       files w' ⊆ files w /\ dirs w' ⊆ dirs w /\
       (faults w = [] ->
        faults w' = [] /\ forall path, path ∈ paths -> absent path w'))
    (fun _ w' => files w' ⊆ files w /\ faults w <> [])
    w.
Proof.
  revert w. induction paths as [|file rest IH]; intros w.
  - apply wp_ret. split; [reflexivity|]. split; [reflexivity|].
    intros Hcalm. split; [exact Hcalm|]. intros q Hin. set_solver.
  - cbn [cleanupTempFiles_loop]. wp_auto.
    + destruct (bool_decide (is_Some (files w !! file))
                || bool_decide (file ∈ dirs w)) eqn:Hex; wp_auto.
      * (* something is there: it is deleted *)
        match goal with |- wp _ _ _ ?w2 => set (w2' := w2); pose proof (IH w2') as Hrest end.
        apply (wp_mono _ _ _ _ _ _ Hrest); subst w2'; wsimpl.
        -- intros [] w' (Hf & Hd & Hc).
           assert (Hf0 : files w' ⊆ files w)
             by (etransitivity; [exact Hf|apply map_filter_subseteq]).
           assert (Hd0 : dirs w' ⊆ dirs w)
             by (etransitivity; [exact Hd|apply kept_subseteq]).
           split; [exact Hf0|]. split; [exact Hd0|].
           intros Hcalm. destruct Hc as [Hc Hgone]; [auto|].
           split; [exact Hc|]. intros q Hin.
           apply elem_of_cons in Hin. destruct Hin as [->|Hin]; [|auto].
           split.
           ++ eapply lookup_weaken_None; [|exact Hf].
              rewrite lookup_kept, kept_self. reflexivity.
           ++ intros Hin. apply (kept_gone (dirs w) (dirs w) file), Hd, Hin.
        -- intros e w' [Hf Hne]. split.
           ++ etransitivity; [exact Hf|apply map_filter_subseteq].
           ++ intros Hcalm. apply Hne. auto.
      * congruence.
      * split; [reflexivity|calm_ne].
      * (* nothing is there *)
        match goal with |- wp _ _ _ ?w2 => set (w2' := w2); pose proof (IH w2') as Hrest end.
        apply (wp_mono _ _ _ _ _ _ Hrest); subst w2'; wsimpl.
        -- intros [] w' (Hf & Hd & Hc).
           split; [exact Hf|]. split; [exact Hd|].
           intros Hcalm. destruct Hc as [Hc Hgone]; [auto|].
           split; [exact Hc|]. intros q Hin.
           apply elem_of_cons in Hin. destruct Hin as [->|Hin]; [|auto].
           apply (absent_weaken _ w _ Hf Hd). apply exists_false, Hex.
        -- intros e w' [Hf Hne]. split; [exact Hf|].
           intros Hcalm. apply Hne. auto.
    + split; [reflexivity|assumption].
Qed.

End CleanupFacts.

(** [cleanupTempFiles] never throws and only removes: every file it leaves
    was there before with the same content.  On web it does nothing at all;
    on a native platform with a host that never fails on its own, nothing is
    left at any of the listed paths. *)
Theorem cleanupTempFiles_spec (paths : list string) (w : World) :
  exists w',
    FileSystemUtils.cleanupTempFiles paths w = (Return tt, w') /\
    files w' ⊆ files w /\
    (is_web (os w) = true -> w' = w) /\
    (is_web (os w) = false -> faults w = [] ->
     forall path, path ∈ paths -> absent path w').
Proof.
  unfold FileSystemUtils.cleanupTempFiles, Platform_OS, bind, gets.
  destruct (is_web (os w)) eqn:Hos.
  - exists w. split; [reflexivity|]. split; [reflexivity|].
    split; [reflexivity|discriminate].
  - assert (H : wp (try_catch (FileSystemUtils.cleanupTempFiles_loop paths)
                      (fun _ => console_error "Error cleaning up temp files:"))
                  (fun _ w' => files w' ⊆ files w /\
                     (faults w = [] -> forall path, path ∈ paths -> absent path w'))
                  (fun _ _ => False) w).
    { apply wp_try_catch.
      apply (wp_mono _ _ _ _ _ _ (cleanupTempFiles_loop_wp paths w)).
      - intros [] w' (Hf & _ & Hc). split; [exact Hf|].
        intros Hcalm. apply Hc, Hcalm.
      - intros e w' [Hf Hne]. unfold console_error. apply wp_emit. wsimpl.
        split; [exact Hf|]. intros Hcalm. contradiction. }
    destruct (wp_returns _ _ _ H) as ([] & w' & Hrun & Hf & Hgone).
    exists w'. split; [exact Hrun|]. split; [exact Hf|].
    split; [discriminate|]. intros _. exact Hgone.
Qed.

Lemma cleanupTempFiles_spec_witness :
  exists w',
    FileSystemUtils.cleanupTempFiles ["cache/a.mp3"; "cache/none.mp3"]
      (device ios {[ "cache/a.mp3" := song; "keep.mp3" := song ]}) =
      (Return tt, w') /\
    absent "cache/a.mp3" w' /\ absent "cache/none.mp3" w'.
Proof.
  destruct (cleanupTempFiles_spec ["cache/a.mp3"; "cache/none.mp3"]
              (device ios {[ "cache/a.mp3" := song; "keep.mp3" := song ]}))
    as (w' & Hrun & _ & _ & Hgone).
  exists w'. split; [exact Hrun|].
  split; apply Hgone; try reflexivity; repeat constructor.
Defined.

Section SaveFacts.
Import FileSystemUtils.

(** What [saveAudioToCache] leaves alone on a native platform, whether it
    returns or throws. *)
Lemma saveAudioToCache_frame uri filename w :
  is_web (os w) = false ->
  let frame := fun w' =>
    settled w w' /\ now w' = now w /\ dirs w' ⊆ dirs w /\
    (cacheDirectory w +:+ filename ∉ dirs w ->
     forall path, path <> cacheDirectory w +:+ filename ->
                  files w' !! path = files w !! path) in
  wp (saveAudioToCache uri filename) (fun _ w' => frame w')
    (fun _ w' => frame w') w.
Proof.
  intros Hos. cbv zeta.
  unfold saveAudioToCache, Platform_OS, console_error.
  wp_auto. rewrite Hos. wp_auto.
  - destruct (bool_decide _ || bool_decide _); wp_auto; unfold settled; wsimpl.
    all: split; [repeat split; trivial; solve [intuition auto]|].
    all: split; [reflexivity|].
    all: split; [first [reflexivity|apply kept_subseteq]|].
    all: intros Hfile q Hq; rewrite ?lookup_insert_ne by congruence;
      rewrite ?(kept_delete _ _ _ Hfile), ?lookup_delete_ne by congruence;
      reflexivity.
  - unfold settled; wsimpl. repeat split; trivial. intros Hc. contradiction.
Qed.

End SaveFacts.

(** [saveAudioToCache] touches the destination only: when the destination
    is not a directory, on every platform, whether the call returns or
    throws, every file at another path is as it was. *)
Theorem saveAudioToCache_touches_destination_only
    (uri filename : string) (w : World) :
  cacheDirectory w +:+ filename ∉ dirs w ->
  forall path,
    path <> cacheDirectory w +:+ filename ->
    files (snd (FileSystemUtils.saveAudioToCache uri filename w)) !! path =
    files w !! path.
Proof.
  intros Hfile path Hpath.
  destruct (is_web (os w)) eqn:Hos.
  - unfold FileSystemUtils.saveAudioToCache, Platform_OS, bind, gets.
    rewrite Hos. reflexivity.
  - pose proof (saveAudioToCache_frame uri filename w Hos) as H.
    cbv zeta in H. unfold wp in H.
    destruct (FileSystemUtils.saveAudioToCache uri filename w) as [[p|e] w'];
      destruct H as (_ & _ & _ & H); apply (H Hfile), Hpath.
Qed.

Lemma saveAudioToCache_touches_destination_only_witness :
  files (snd (FileSystemUtils.saveAudioToCache "missing.m4a" "recording.m4a"
                (device ios {[ "keep.mp3" := song ]}))) !! "keep.mp3" = Some song.
Proof.
  rewrite (saveAudioToCache_touches_destination_only "missing.m4a"
             "recording.m4a" (device ios {[ "keep.mp3" := song ]})).
  - reflexivity.
  - cbn. set_solver.
  - discriminate.
Defined.

(** A later save under the same name replaces the earlier one.  On a native
    platform with a host that never fails on its own, when the destination
    is not a directory, saving one existing
    file and then another under the same file name returns the same
    destination twice; in the end the destination holds the content of the
    second file, and both sources are untouched. *)
Theorem saveAudioToCache_replaces (uri1 uri2 filename : string) (w : World)
    (content1 content2 : bytes) :
  is_web (os w) = false ->
  faults w = [] ->
  files w !! uri1 = Some content1 ->
  files w !! uri2 = Some content2 ->
  uri1 <> cacheDirectory w +:+ filename ->
  uri2 <> cacheDirectory w +:+ filename ->
  cacheDirectory w +:+ filename ∉ dirs w ->
  exists w1 w2,
    FileSystemUtils.saveAudioToCache uri1 filename w =
      (Return (cacheDirectory w +:+ filename), w1) /\
    FileSystemUtils.saveAudioToCache uri2 filename w1 =
      (Return (cacheDirectory w +:+ filename), w2) /\
    files w1 !! (cacheDirectory w +:+ filename) = Some content1 /\
    files w2 !! (cacheDirectory w +:+ filename) = Some content2 /\
    files w2 !! uri1 = Some content1 /\
    files w2 !! uri2 = Some content2.
Proof.
  intros Hos Hcalm H1 H2 Hne1 Hne2 Hfile.
  assert (Hgone : forall d uri, cacheDirectory w +:+ filename ∉ d ->
            uri <> cacheDirectory w +:+ filename ->
            FileSystem.kept d (cacheDirectory w +:+ filename) uri = false ->
            False).
  { intros d uri Hd Hne Hk. rewrite (kept_file _ _ _ Hd) in Hk.
    rewrite (bool_decide_eq_false_2 _ Hne) in Hk. discriminate Hk. }
  pose proof (wp_conj _ _ _ _ _ _ (saveAudioToCache_native uri1 filename w Hos)
                (saveAudioToCache_frame uri1 filename w Hos)) as Hfirst.
  cbv zeta in Hfirst.
  destruct (wp_run _ _ _ _ Hfirst)
    as [(p1 & w1 & Hrun1 & (-> & (c & Hc & Hd1 & _) & _)
         & (Hos1 & Hcd1 & Hcalm1) & _ & Hdirs1 & Hrest1)
       |(e & w1 & _ & [_ Hmiss] & _)];
    [|destruct (Hmiss Hcalm) as [Hnone|Hk];
      [congruence|destruct (Hgone _ _ Hfile Hne1 Hk)]].
  assert (c = content1) as -> by congruence.
  specialize (Hrest1 Hfile).
  assert (Hfile1 : cacheDirectory w +:+ filename ∉ dirs w1)
    by (intros Hin; apply Hfile, Hdirs1, Hin).
  rewrite <- Hos1 in Hos.
  pose proof (wp_conj _ _ _ _ _ _ (saveAudioToCache_native uri2 filename w1 Hos)
                (saveAudioToCache_frame uri2 filename w1 Hos)) as Hsecond.
  cbv zeta in Hsecond. rewrite Hcd1 in Hsecond.
  assert (H2' : files w1 !! uri2 = Some content2)
    by (rewrite Hrest1; assumption).
  destruct (wp_run _ _ _ _ Hsecond)
    as [(p2 & w2 & Hrun2 & (-> & (c & Hc' & Hd2 & _) & _) & _ & _ & _ & Hrest2)
       |(e & w2 & _ & [_ Hmiss] & _)];
    [|destruct (Hmiss (Hcalm1 Hcalm)) as [Hnone|Hk];
      [congruence|destruct (Hgone _ _ Hfile1 Hne2 Hk)]].
  assert (c = content2) as -> by congruence.
  specialize (Hrest2 Hfile1).
  exists w1, w2. split; [exact Hrun1|]. split; [exact Hrun2|].
  split; [exact Hd1|]. split; [exact Hd2|].
  split.
  - rewrite Hrest2, Hrest1; assumption.
  - rewrite Hrest2; assumption.
Qed.

Lemma saveAudioToCache_replaces_witness :
  exists w1 w2,
    FileSystemUtils.saveAudioToCache "AV/one.m4a" "recording.m4a"
      (device ios {[ "AV/one.m4a" := song; "AV/two.m4a" := [] ]}) =
      (Return "cache/recording.m4a", w1) /\
    FileSystemUtils.saveAudioToCache "AV/two.m4a" "recording.m4a" w1 =
      (Return "cache/recording.m4a", w2) /\
    files w2 !! "cache/recording.m4a" = Some [].
Proof.
  destruct (saveAudioToCache_replaces "AV/one.m4a" "AV/two.m4a" "recording.m4a"
              (device ios {[ "AV/one.m4a" := song; "AV/two.m4a" := [] ]})
              song [])
    as (w1 & w2 & Hrun1 & Hrun2 & _ & Hdest & _);
    [reflexivity|reflexivity|reflexivity|reflexivity|discriminate|discriminate
    |cbn; set_solver|].
  exists w1, w2. auto.
Defined.

(** ** app/(tabs)/editor.tsx *)

Lemma silent_createAsync uri vol : silent (Audio.createAsync uri vol).
Proof. intros w. unfold Audio.createAsync. silent_steps. Qed.

Lemma silent_getStatusAsync sound : silent (Audio.getStatusAsync sound).
Proof. intros w. unfold Audio.getStatusAsync. silent_steps. Qed.

Section EditorMore.
Import EditorScreen.

(** Loading the processed tracks never throws and shows no alert; of the
    state of the screen it changes the two sounds at most. *)
Lemma wp_loadProcessedTracks st vocalUri instrumentalUri
    (Q : unit -> State * World -> Prop) E s w :
  (forall s' w',
     unchanged_but_sounds s s' ->
     alerts_of (trace w') = alerts_of (trace w) -> Q tt (s', w')) ->
  wp (loadProcessedTracks st vocalUri instrumentalUri) Q E (s, w).
Proof.
  intros HQ.
  assert (Hrefl : unchanged_but_sounds s s) by (repeat split).
  assert (Hlog : forall s' w', unchanged_but_sounds s s' ->
            alerts_of (trace w') = alerts_of (trace w) ->
            wp (liftW (console_error "Failed to load processed tracks")) Q E
               (s', w')).
  { intros s' w' Hs Hw. apply wp_liftW. unfold console_error. apply wp_emit.
    apply HQ; [exact Hs|]. quiet. }
  assert (Hunload : forall (snd0 : option nat) s' w' (Q' : unit -> State * World -> Prop),
            alerts_of (trace w') = alerts_of (trace w) ->
            unchanged_but_sounds s s' ->
            (forall w'', alerts_of (trace w'') = alerts_of (trace w) -> Q' tt (s', w'')) ->
            wp (match snd0 with
                | Some s0 => liftW (Audio.unloadAsync s0)
                | None => ret tt
                end) Q'
               (fun e sw => wp (liftW (console_error "Failed to load processed tracks")) Q E sw)
               (s', w')).
  { intros [s0|] s' w' Q' Hw Hs HQ'.
    - apply wp_liftW. apply (wp_silent _ _ _ _ (silent_unloadAsync s0)); cbn [fst snd].
      + intros [] w'' Hw''. apply HQ'. congruence.
      + intros e w'' Hw''. apply Hlog; [exact Hs|congruence].
    - apply wp_ret, HQ', Hw. }
  unfold loadProcessedTracks. apply wp_try_catch, wp_bind.
  apply Hunload; [reflexivity|exact Hrefl|]. intros w1 H1.
  apply wp_bind, wp_liftW.
  apply (wp_silent _ _ _ _ (silent_createAsync _ _)); cbn [fst snd];
    [|intros e w2 H2; apply Hlog; [exact Hrefl|congruence]].
  intros newVocal w2 H2. unfold setVocalSound, setInstrumentalSound.
  apply wp_bind, wp_setState. cbn [fst snd]. apply wp_bind.
  apply Hunload; [congruence|repeat split|]. intros w3 H3.
  apply wp_bind, wp_liftW.
  apply (wp_silent _ _ _ _ (silent_createAsync _ _)); cbn [fst snd];
    [|intros e w4 H4; apply Hlog; [repeat split|congruence]].
  intros newInstrumental w4 H4. apply wp_setState. cbn [fst snd].
  apply HQ; [repeat split|congruence].
Qed.

End EditorMore.

Lemma wp_any {S A} (m : M S A) (Q : A -> S -> Prop) (E : JsError -> S -> Prop) s :
  (forall a s', Q a s') -> (forall e s', E e s') -> wp m Q E s.
Proof. intros HQ HE. unfold wp. destruct (m s) as [[a|e] s']; auto. Qed.

Section EditorRuns.
Import EditorScreen.

Lemma wp_stopAllPlayback st (Q : unit -> State * World -> Prop) E s w :
  (forall w', alerts_of (trace w') = alerts_of (trace w) ->
              Q tt (stopped_state s, w')) ->
  wp (stopAllPlayback st) Q E (s, w).
Proof.
  intros HQ. destruct (stopAllPlayback_run st s w) as (w' & Hrun & Hquiet).
  unfold wp. rewrite Hrun. apply HQ, Hquiet.
Qed.

Lemma loadProcessedTracks_run st vocalUri instrumentalUri s w :
  exists s' w',
    loadProcessedTracks st vocalUri instrumentalUri (s, w) =
      (Return tt, (s', w')) /\
    unchanged_but_sounds s s' /\
    alerts_of (trace w') = alerts_of (trace w).
Proof.
  assert (H : wp (loadProcessedTracks st vocalUri instrumentalUri)
                (fun _ sw => unchanged_but_sounds s (fst sw) /\
                   alerts_of (trace (snd sw)) = alerts_of (trace w))
                (fun _ _ => False) (s, w)).
  { apply wp_loadProcessedTracks. intros s' w' Hs Hw. split; assumption. }
  destruct (wp_returns _ _ _ H) as ([] & [s' w'] & Hrun & Hs & Hw).
  exists s', w'. auto.
Qed.

End EditorRuns.

(** [processAudio] never throws and never leaves the spinner on: for every
    implementation of [processingAudio] and every host it returns; without
    an [audioUri] it changes nothing at all, and with one [isProcessing] is
    false in the end. *)
Theorem processAudio_always_returns
    (processingAudio : string -> M World ProcessingResult.t)
    (audioUri : option string) (st : EditorScreen.State) (w : World) :
  exists sf wf,
    EditorScreen.processAudio processingAudio audioUri st (st, w) =
      (Return tt, (sf, wf)) /\
    if truthy audioUri
    then EditorScreen.isProcessing sf = false
    else sf = st /\ wf = w.
Proof.
  destruct audioUri as [[|c rest]|]; cbn [truthy];
    try (exists st, w; split; [reflexivity|split; reflexivity]).
  assert (H : wp (EditorScreen.processAudio processingAudio
                    (Some (String c rest)) st)
                (fun _ sw => EditorScreen.isProcessing (fst sw) = false)
                (fun _ _ => False) (st, w)).
  { unfold EditorScreen.processAudio, EditorScreen.setIsProcessing.
    apply wp_bind, wp_setState. cbn [fst snd].
    apply wp_finally, wp_try_catch.
    apply wp_bind, wp_stopAllPlayback. intros w1 _.
    apply wp_bind, wp_liftW, wp_any.
    - intros r w2. cbn [fst snd].
      destruct (ProcessingResult.success r).
      + unfold EditorScreen.setVocalTrack, EditorScreen.setInstrumentalTrack,
          EditorScreen.setIsProcessed, EditorScreen.setPlaybackMode.
        apply wp_bind, wp_setState, wp_bind, wp_setState, wp_bind, wp_setState.
        cbn [fst snd]. apply wp_bind, wp_loadProcessedTracks.
        intros s' w' _ _. apply wp_setState, wp_setState. reflexivity.
      + unfold Alert_alert. apply wp_liftW, wp_emit, wp_setState. reflexivity.
    - intros e w2. unfold console_error, Alert_alert.
      apply wp_bind, wp_liftW, wp_emit, wp_liftW, wp_emit, wp_setState.
      reflexivity. }
  destruct (wp_returns _ _ _ H) as ([] & [sf wf] & Hrun & Hsf).
  exists sf, wf. split; [exact Hrun|exact Hsf].
Qed.

(** When [processingAudio] returns a success, [processAudio] takes its two
    tracks over, marks the audio as processed and switches to the processed
    mode, with [isProcessing] false in the end.  It shows no alert, also when
    loading the two tracks fails: that failure is only logged.  [w1] is the
    host once playback was stopped, [w2] the host that [processingAudio]
    leaves. *)
Theorem processAudio_success
    (processingAudio : string -> M World ProcessingResult.t)
    (c : Ascii.ascii) (rest : string) (st : EditorScreen.State) (w : World) :
  let audioUri := String c rest in
  let w1 := snd (snd ((EditorScreen.setIsProcessing true ;;
                       EditorScreen.stopAllPlayback st) (st, w))) in
  forall r w2,
    processingAudio audioUri w1 = (Return r, w2) ->
    ProcessingResult.success r = true ->
    exists sf wf,
      EditorScreen.processAudio processingAudio (Some audioUri) st (st, w) =
        (Return tt, (sf, wf)) /\
      EditorScreen.vocalTrack sf = ProcessingResult.vocalTrack r /\
      EditorScreen.instrumentalTrack sf = ProcessingResult.instrumentalTrack r /\
      EditorScreen.isProcessed sf = true /\
      EditorScreen.playbackMode sf = EditorScreen.processed /\
      EditorScreen.isProcessing sf = false /\
      alerts_of (trace wf) = alerts_of (trace w2).
Proof.
  intros audioUri w1 r w2 Hrun Hok. subst audioUri.
  destruct (stopAllPlayback_run st
              (EditorScreen.mkState true (EditorScreen.isProcessed st)
                 (EditorScreen.vocalTrack st) (EditorScreen.instrumentalTrack st)
                 (EditorScreen.vocalVolume st) (EditorScreen.instrumentalVolume st)
                 (EditorScreen.originalSound st) (EditorScreen.vocalSound st)
                 (EditorScreen.instrumentalSound st) (EditorScreen.isPlaying st)
                 (EditorScreen.playbackMode st) (EditorScreen.duration st)
                 (EditorScreen.position st)) w) as (w' & Hstop & _).
  esimpl.
  assert (Hw1 : w1 = w').
  { subst w1. unfold bind, EditorScreen.setIsProcessing, setState.
    esimpl. rewrite Hstop. reflexivity. }
  rewrite Hw1 in *. clear w1 Hw1.
  unfold EditorScreen.processAudio, try_catch_finally, try_catch, bind,
    EditorScreen.setIsProcessing, setState.
  esimpl. rewrite Hstop.
  unfold liftW at 1. esimpl. rewrite Hrun, Hok.
  unfold EditorScreen.setVocalTrack, EditorScreen.setInstrumentalTrack,
    EditorScreen.setIsProcessed, EditorScreen.setPlaybackMode, setState.
  esimpl.
  match goal with
  | |- context [EditorScreen.loadProcessedTracks st ?v ?i (?s, w2)] =>
      destruct (loadProcessedTracks_run st v i s w2)
        as (s' & w3 & Hload & Hs & Hquiet)
  end.
  rewrite Hload. esimpl.
  destruct Hs as (_ & Hp & Hv & Hi & _).
  eexists _, w3. split; [reflexivity|]. esimpl.
  repeat split; assumption.
Qed.

(** On an iOS device that holds the audio, the real [processingAudio]
    succeeds and the editor ends in the processed mode without an alert. *)
Lemma processAudio_success_witness :
  exists sf wf,
    EditorScreen.processAudio AudioProcessing.processingAudio
      (Some "song.mp3") EditorScreen.initialState
      (EditorScreen.initialState, device ios {[ "song.mp3" := song ]}) =
      (Return tt, (sf, wf)) /\
    EditorScreen.vocalTrack sf = Some "cache/temp_4000/vocals.mp3" /\
    EditorScreen.isProcessed sf = true /\
    EditorScreen.playbackMode sf = EditorScreen.processed /\
    alerts_of (trace wf) = [].
Proof.
  edestruct (processAudio_success AudioProcessing.processingAudio
               "s"%char "ong.mp3" EditorScreen.initialState
               (device ios {[ "song.mp3" := song ]}))
    as (sf & wf & Hrun & Hv & _ & Hp & Hm & _ & Hal).
  - vm_compute. reflexivity.
  - reflexivity.
  - exists sf, wf. split; [exact Hrun|]. rewrite Hv, Hal.
    repeat split; trivial.
Defined.

(** [stopAllPlayback] never throws, whatever the sounds of the screen and
    the host do: it returns, with [isPlaying] false, [position] 0 and every
    other part of the state as it was, and it shows no alert. *)
Theorem stopAllPlayback_always_stops (st s : EditorScreen.State) (w : World) :
  exists w',
    EditorScreen.stopAllPlayback st (s, w) = (Return tt, (stopped_state s, w')) /\
    alerts_of (trace w') = alerts_of (trace w).
Proof. exact (stopAllPlayback_run st s w). Qed.


(** ** app/(tabs)/export.tsx *)

(** Every run of [exportAudio] returns and shows exactly one alert, for
    every implementation of [mergeAudioTracks], also one that throws.  With
    both tracks the merge is called once, on the host as it is, and
    [isMerging] is false in the end; without them the merge is not called and
    the state is untouched.  [exportName] never changes. *)
Theorem exportAudio_one_alert
    (mergeAudioTracks : string -> string -> R -> R -> M World MergeResult.t)
    (parseFloat : string -> R)
    (p : ExportScreen.Params) (st : ExportScreen.State) (w : World) :
  exists sf w2 l title message,
    ExportScreen.exportAudio mergeAudioTracks parseFloat p (st, w) =
      (Return tt, (sf, set_trace (fun t => (t ++ l)%list) w2)) /\
    alerts_of l = [(title, message)] /\
    ExportScreen.exportName sf = ExportScreen.exportName st /\
    (ExportScreen.hasRequiredParams p = false -> w2 = w /\ sf = st) /\
    (ExportScreen.hasRequiredParams p = true ->
     ExportScreen.isMerging sf = false /\
     forall vocal instrumental,
       ExportScreen.vocalTrack p = Some vocal ->
       ExportScreen.instrumentalTrack p = Some instrumental ->
       w2 = snd (mergeAudioTracks vocal instrumental
                   (ExportScreen.vocalVol parseFloat p)
                   (ExportScreen.instrumentalVol parseFloat p) w)).
Proof.
  unfold ExportScreen.hasRequiredParams, ExportScreen.exportAudio.
  destruct (ExportScreen.vocalTrack p) as [[|c1 v]|];
    destruct (ExportScreen.instrumentalTrack p) as [[|c2 i]|]; cbn [truthy andb];
    try (exists st, w; eexists [_], _, _;
         split; [reflexivity|]; split; [reflexivity|];
         split; [reflexivity|]; split; [split; reflexivity|discriminate]).
  unfold try_catch_finally, try_catch, bind, ExportScreen.setIsMerging,
    ExportScreen.setExportedUri, setState.
  cbn [fst snd]. unfold liftW at 1. cbn [fst snd].
  destruct (mergeAudioTracks (String c1 v) (String c2 i)
              (ExportScreen.vocalVol parseFloat p)
              (ExportScreen.instrumentalVol parseFloat p) w)
    as [[r|e] w2] eqn:Hrun.
  - destruct (MergeResult.success r); cbn;
      (eexists _, w2, [_], _, _;
       split; [reflexivity|]; split; [reflexivity|];
       split; [reflexivity|]; split; [discriminate|];
       intros _; split; [reflexivity|];
       intros vocal instrumental Hv Hi; injection Hv as <-; injection Hi as <-;
       rewrite Hrun; reflexivity).
  - cbn. rewrite set_trace_app.
    eexists _, w2, [_; _], _, _.
    split; [reflexivity|]. split; [reflexivity|].
    split; [reflexivity|]. split; [discriminate|].
    intros _. split; [reflexivity|].
    intros vocal instrumental Hv Hi. injection Hv as <-. injection Hi as <-.
    rewrite Hrun. reflexivity.
Qed.

(** With the real [mergeAudioTracks] on a native platform and a host that
    never fails on its own: when both tracks are named and the vocal file
    exists, [exportAudio] ends with [exportedUri] naming a file that holds
    the bytes of the vocal track, [isMerging] false and the one alert
    "Success". *)
Theorem exportAudio_exports_the_vocal_track (parseFloat : string -> R)
    (p : ExportScreen.Params) (st : ExportScreen.State) (w : World)
    (c1 c2 : Ascii.ascii) (v i : string) (content : bytes) :
  ExportScreen.vocalTrack p = Some (String c1 v) ->
  ExportScreen.instrumentalTrack p = Some (String c2 i) ->
  is_web (os w) = false ->
  faults w = [] ->
  files w !! String c1 v = Some content ->
  exists outputUri wf,
    ExportScreen.exportAudio AudioProcessing.mergeAudioTracks parseFloat p (st, w) =
      (Return tt,
       (ExportScreen.mkState false (Some outputUri) (ExportScreen.exportName st),
        wf)) /\
    files wf !! outputUri = Some content /\
    alerts_of (trace wf) =
      (alerts_of (trace w)
       ++ [("Success", "Your audio has been successfully exported!")])%list.
Proof.
  intros Hv Hi Hos Hcalm Hin.
  destruct (wp_returns _ _ _
              (nativeMergeAudio_wp (String c1 v) (String c2 i)
                 (ExportScreen.vocalVol parseFloat p)
                 (ExportScreen.instrumentalVol parseFloat p) w))
    as (r & w2 & Hrun & _ & [(-> & (c & Hc & Hf) & Htr) | (_ & _ & Hmiss)]);
    [|rewrite (Hmiss Hcalm) in Hin; discriminate].
  assert (c = content) as -> by congruence.
  assert (Hmerge : AudioProcessing.mergeAudioTracks (String c1 v) (String c2 i)
                     (ExportScreen.vocalVol parseFloat p)
                     (ExportScreen.instrumentalVol parseFloat p) w = (Return
                       (MergeResult.mk true
                          (Some (cacheDirectory w +:+ "mixed_"
                                 +:+ pretty (now w + 2000)%N +:+ ".mp3")) None),
                       w2)).
  { unfold AudioProcessing.mergeAudioTracks, Platform_OS, bind, gets.
    rewrite Hos. exact Hrun. }
  unfold ExportScreen.exportAudio. rewrite Hv, Hi.
  unfold try_catch_finally, try_catch, bind, ExportScreen.setIsMerging,
    ExportScreen.setExportedUri, setState.
  cbn [fst snd]. unfold liftW at 1. cbn [fst snd]. rewrite Hmerge. cbn.
  eexists _, _. split; [reflexivity|]. wsimpl. split.
  - rewrite Hf. apply lookup_insert_eq.
  - rewrite Htr, !alerts_of_app. cbn. rewrite app_nil_r. reflexivity.
Qed.

Lemma exportAudio_exports_the_vocal_track_witness :
  exists outputUri wf,
    ExportScreen.exportAudio AudioProcessing.mergeAudioTracks (fun _ => 1%R)
      (ExportScreen.mkParams (Some "v.mp3") (Some "i.mp3") None None)
      (ExportScreen.initialState, device ios {[ "v.mp3" := song ]}) =
      (Return tt,
       (ExportScreen.mkState false (Some outputUri) "mixed_audio.mp3", wf)) /\
    files wf !! outputUri = Some song.
Proof.
  destruct (exportAudio_exports_the_vocal_track (fun _ => 1%R)
              (ExportScreen.mkParams (Some "v.mp3") (Some "i.mp3") None None)
              ExportScreen.initialState (device ios {[ "v.mp3" := song ]})
              "v"%char "i"%char ".mp3" ".mp3" song)
    as (outputUri & wf & Hrun & Hout & _); try reflexivity.
  exists outputUri, wf. split; [exact Hrun|exact Hout].
Defined.

(** ** app/(tabs)/upload.tsx *)

Ltac usimpl :=
  cbn [fst snd UploadScreen.audioUri UploadScreen.fileName UploadScreen.sound
       UploadScreen.isPlaying UploadScreen.duration UploadScreen.position] in *.

Lemma hostcall_calm w : faults w = [] -> hostcall w = (Return tt, w).
Proof. intros H. unfold hostcall. rewrite H. reflexivity. Qed.

(** [loadAudio] of the Upload screen with a host that never fails on its
    own.  When the player can decode what is at [uri], the screen gets a new
    sound, loaded and not playing, and the duration in seconds, and no alert
    is shown; otherwise the state is as it was and one alert tells that the
    audio could not be loaded.  No file is touched. *)
Theorem upload_loadAudio_spec (uri : string) (s : UploadScreen.State) (w : World) :
  faults w = [] ->
  exists wf,
    files wf = files w /\
    match loadable w (Some uri) with
    | Some d =>
        UploadScreen.loadAudio uri (s, w) =
          (Return tt,
           (UploadScreen.mkState (UploadScreen.audioUri s) (UploadScreen.fileName s)
              (Some (nextSound w)) (UploadScreen.isPlaying s)
              (UploadScreen.seconds_of (Some d)) (UploadScreen.position s), wf)) /\
        sounds wf !! nextSound w = Some (mkSoundStatus true false 0 (Some d) 1) /\
        alerts_of (trace wf) = alerts_of (trace w)
    | None =>
        UploadScreen.loadAudio uri (s, w) = (Return tt, (s, wf)) /\
        alerts_of (trace wf) =
          (alerts_of (trace w)
           ++ [("Error",
                "Failed to load audio file. The format may not be supported.")])%list
    end.
Proof.
  intros Hcalm.
  unfold UploadScreen.loadAudio, try_catch, bind, liftW, Audio.createAsync,
    Audio.getStatusAsync, bind, get.
  cbn [fst snd]. rewrite (hostcall_calm w Hcalm).
  unfold emit, modify, ret, throw, console_error, Alert_alert, emit, modify.
  wsimpl. unfold loadable.
  destruct (files w !! uri) as [content|] eqn:Hfile;
    [destruct (decodeDuration w content) as [d|] eqn:Hdec|].
  - unfold UploadScreen.setSound, UploadScreen.setDuration, setState.
    cbn [fst snd]. rewrite hostcall_calm by (wsimpl; exact Hcalm).
    wsimpl. rewrite lookup_insert_eq. cbn.
    eexists. split; [|split; [reflexivity|split]]; wsimpl.
    + reflexivity.
    + apply lookup_insert_eq.
    + quiet.
  - cbn. eexists. split; [|split; [destruct s; reflexivity|]]; wsimpl.
    + reflexivity.
    + rewrite !alerts_of_app. cbn [alerts_of]. rewrite !app_nil_r. reflexivity.
  - cbn. eexists. split; [|split; [destruct s; reflexivity|]]; wsimpl.
    + reflexivity.
    + rewrite !alerts_of_app. cbn [alerts_of]. rewrite !app_nil_r. reflexivity.
Qed.

Lemma upload_loadAudio_spec_witness :
  exists wf,
    UploadScreen.loadAudio "a.mp3"
      (UploadScreen.initialState, device web {[ "a.mp3" := song ]}) =
      (Return tt,
       (UploadScreen.mkState None None (Some 0%nat) false
          (UploadScreen.seconds_of (Some 3000%N)) 0, wf)) /\
    alerts_of (trace wf) = [].
Proof.
  destruct (upload_loadAudio_spec "a.mp3" UploadScreen.initialState
              (device web {[ "a.mp3" := song ]}) eq_refl)
    as (wf & _ & H).
  exists wf. change (loadable (device web {[ "a.mp3" := song ]}) (Some "a.mp3"))
    with (Some 3000%N) in H.
  destruct H as (Hrun & _ & Hal). split; [exact Hrun|exact Hal].
Defined.

Lemma silent_getDocumentAsync : silent DocumentPicker.getDocumentAsync.
Proof. intros w. unfold DocumentPicker.getDocumentAsync. silent_steps. Qed.

Lemma silent_saveAudioToCache uri filename :
  silent (FileSystemUtils.saveAudioToCache uri filename).
Proof.
  intros w. unfold FileSystemUtils.saveAudioToCache, Platform_OS, console_error.
  silent_steps.
Qed.

Section UploadMore.
Import UploadScreen.

(** [loadAudio] never throws; it shows one alert at most and, of the state
    of the screen, changes the sound and the duration only. *)
Lemma wp_upload_loadAudio uri (Q : unit -> State * World -> Prop) E s w :
  (forall s' w',
     audioUri s' = audioUri s -> fileName s' = fileName s ->
     isPlaying s' = isPlaying s -> position s' = position s ->
     alerts_at_most_one w w' -> Q tt (s', w')) ->
  wp (loadAudio uri) Q E (s, w).
Proof.
  intros HQ.
  assert (Hcatch : forall s' w',
            audioUri s' = audioUri s -> fileName s' = fileName s ->
            isPlaying s' = isPlaying s -> position s' = position s ->
            alerts_of (trace w') = alerts_of (trace w) ->
            wp (liftW (console_error "Failed to load audio") ;;
                liftW (Alert_alert "Error"
                  "Failed to load audio file. The format may not be supported."))
               Q E (s', w')).
  { intros s' w' H1 H2 H3 H4 Hw. unfold console_error, Alert_alert.
    apply wp_bind, wp_liftW, wp_emit, wp_liftW, wp_emit. cbn [fst snd].
    apply HQ; trivial. right. eexists. wsimpl.
    rewrite !alerts_of_app, Hw. cbn [alerts_of]. rewrite app_nil_r. reflexivity. }
  unfold loadAudio. apply wp_try_catch, wp_bind, wp_liftW.
  apply (wp_silent _ _ _ _ (silent_createAsync _ _)); cbn [fst snd];
    [|intros e w1 H1; apply Hcatch; trivial].
  intros newSound w1 H1. unfold setSound, setDuration.
  apply wp_bind, wp_setState. cbn [fst snd]. apply wp_bind, wp_liftW.
  apply (wp_silent _ _ _ _ (silent_getStatusAsync _)); cbn [fst snd];
    [|intros e w2 H2; apply Hcatch; trivial; congruence].
  intros status w2 H2.
  destruct (isLoaded status).
  - apply wp_setState. cbn [fst snd]. apply HQ; trivial. left. congruence.
  - apply wp_ret. apply HQ; trivial. left. congruence.
Qed.

End UploadMore.

(** A canceled pick changes nothing: when the picker returns a canceled
    choice, [pickAudio] returns with the state of the screen as it was, the
    current sound still loaded, and the host as the picker left it. *)
Theorem pickAudio_canceled (st : UploadScreen.State) (w w1 : World)
    (result : DocumentPickerResult) :
  DocumentPicker.getDocumentAsync w = (Return result, w1) ->
  canceled result = true ->
  UploadScreen.pickAudio st (st, w) = (Return tt, (st, w1)).
Proof.
  intros Hpick Hcanceled.
  unfold UploadScreen.pickAudio, try_catch, bind.
  unfold liftW at 1. cbn [fst snd]. rewrite Hpick, Hcanceled. reflexivity.
Qed.

Lemma pickAudio_canceled_witness :
  exists wf,
    UploadScreen.pickAudio upload_state
      (upload_state, set_picker (fun _ => [mkPick true []]) upload_world) =
      (Return tt, (upload_state, wf)) /\
    isLoaded <$> (sounds wf !! 0%nat) = Some true.
Proof.
  eexists. split.
  - apply (pickAudio_canceled upload_state
             (set_picker (fun _ => [mkPick true []]) upload_world) _
             (mkPick true [])).
    + vm_compute. reflexivity.
    + reflexivity.
  - vm_compute. reflexivity.
Defined.

(** [pickAudio] never throws and shows one alert at most, whatever the user
    picks and whatever the host does. *)
Theorem pickAudio_always_returns (st : UploadScreen.State) (w : World) :
  exists sf wf,
    UploadScreen.pickAudio st (st, w) = (Return tt, (sf, wf)) /\
    alerts_at_most_one w wf.
Proof.
  assert (H : wp (UploadScreen.pickAudio st)
                (fun _ (sw : UploadScreen.State * World) => alerts_at_most_one w (snd sw))
                (fun _ _ => False) (st, w)).
  { assert (Hcatch : forall s' w',
              alerts_of (trace w') = alerts_of (trace w) ->
              wp (liftW (console_error "Error picking document:") ;;
                  liftW (Alert_alert "Error"
                           "Failed to pick audio file. Please try again."))
                 (fun _ (sw : UploadScreen.State * World) => alerts_at_most_one w (snd sw))
                 (fun _ _ => False) (s', w')).
    { intros s' w' Hw. unfold console_error, Alert_alert.
      apply wp_bind, wp_liftW, wp_emit, wp_liftW, wp_emit. cbn [fst snd].
      right. eexists. wsimpl.
      rewrite !alerts_of_app, Hw. cbn [alerts_of]. rewrite app_nil_r.
      reflexivity. }
    unfold UploadScreen.pickAudio. apply wp_try_catch, wp_bind, wp_liftW.
    apply (wp_silent _ _ _ _ silent_getDocumentAsync); cbn [fst snd];
      [|intros e w1 H1; apply Hcatch; exact H1].
    intros result w1 H1.
    destruct (canceled result); [apply wp_ret; left; exact H1|].
    apply wp_bind.
    assert (Hrest : forall s2 w2,
              alerts_of (trace w2) = alerts_of (trace w) ->
              wp (match assets result with
                  | [] => throw (TypeError "Cannot read properties of undefined")
                  | asset :: _ =>
                      UploadScreen.setFileName (Some (asset_name asset)) ;;
                      if UploadScreen.too_large asset then
                        liftW (Alert_alert "File too large"
                                 "Please select an audio file smaller than 50MB")
                      else
                        try_catch
                          (savedUri <- liftW (FileSystemUtils.saveAudioToCache
                                                (asset_uri asset) (asset_name asset)) ;;
                           UploadScreen.setAudioUri (Some savedUri) ;;
                           UploadScreen.loadAudio savedUri)
                          (fun err =>
                             liftW (console_error "Invalid audio file:") ;;
                             liftW (Alert_alert "Invalid File"
                                      "Please select a valid audio file") ;;
                             UploadScreen.setAudioUri None ;;
                             UploadScreen.setFileName None)
                  end)
                 (fun _ (sw : UploadScreen.State * World) => alerts_at_most_one w (snd sw))
                 (fun e sw =>
                    wp (liftW (console_error "Error picking document:") ;;
                        liftW (Alert_alert "Error"
                                 "Failed to pick audio file. Please try again."))
                       (fun _ (sw : UploadScreen.State * World) => alerts_at_most_one w (snd sw))
                       (fun _ _ => False) sw)
                 (s2, w2)).
    { intros s2 w2 H2.
      destruct (assets result) as [|asset others];
        [apply wp_throw, Hcatch, H2|].
      unfold UploadScreen.setFileName, UploadScreen.setAudioUri.
      apply wp_bind, wp_setState. cbn [fst snd].
      destruct (UploadScreen.too_large asset).
      - unfold Alert_alert. apply wp_liftW, wp_emit. cbn [fst snd].
        right. eexists. wsimpl. rewrite alerts_of_app, H2. reflexivity.
      - apply wp_try_catch, wp_bind, wp_liftW.
        apply (wp_silent _ _ _ _ (silent_saveAudioToCache _ _)); cbn [fst snd].
        + intros savedUri w3 H3. apply wp_bind, wp_setState. cbn [fst snd].
          apply wp_upload_loadAudio. intros s' w' _ _ _ _ Hload. cbn [snd].
          destruct Hload as [Hl|[a Hl]]; [left|right; exists a]; congruence.
        + intros e w3 H3. unfold console_error, Alert_alert.
          apply wp_bind, wp_liftW, wp_emit, wp_bind, wp_liftW, wp_emit.
          cbn [fst snd]. apply wp_bind, wp_setState, wp_setState. cbn [fst snd].
          right. eexists. wsimpl.
          rewrite !alerts_of_app, H3, H2. cbn [alerts_of]. rewrite app_nil_r.
          reflexivity. }
    destruct (UploadScreen.sound st) as [s0|].
    - apply wp_bind, wp_liftW.
      apply (wp_silent _ _ _ _ (silent_unloadAsync s0)); cbn [fst snd];
        [|intros e w2 H2; apply Hcatch; congruence].
      intros [] w2 H2. unfold UploadScreen.setSound, UploadScreen.setIsPlaying.
      apply wp_bind, wp_setState, wp_setState. cbn [fst snd].
      apply Hrest. congruence.
    - apply wp_ret. apply Hrest. exact H1. }
  destruct (wp_returns _ _ _ H) as ([] & [sf wf] & Hrun & Hal).
  exists sf, wf. split; [exact Hrun|exact Hal].
Qed.

Lemma wp_of_run {S A} (m : M S A) (Q : A -> S -> Prop) E s a s' :
  m s = (Return a, s') -> Q a s' -> wp m Q E s.
Proof. intros Hrun HQ. unfold wp. rewrite Hrun. exact HQ. Qed.

(** An accepted pick becomes the selection, playable or not.  When the
    picker returns a choice that is not canceled, whose first asset is not
    too large, unloading the current sound does not reject and
    [saveAudioToCache] returns [savedUri], then [pickAudio] returns with
    [audioUri] set to [savedUri] and [fileName] to the name of the asset,
    whatever happens when the audio is loaded afterwards; the load shows one
    alert at most. *)
Theorem pickAudio_selects (st : UploadScreen.State) (w w1 w2 w3 : World)
    (result : DocumentPickerResult) (asset : Asset) (others : list Asset)
    (savedUri : string) :
  DocumentPicker.getDocumentAsync w = (Return result, w1) ->
  canceled result = false ->
  assets result = asset :: others ->
  UploadScreen.too_large asset = false ->
  match UploadScreen.sound st with
  | Some s => Audio.unloadAsync s w1 = (Return tt, w2)
  | None => w2 = w1
  end ->
  FileSystemUtils.saveAudioToCache (asset_uri asset) (asset_name asset) w2 =
    (Return savedUri, w3) ->
  exists sf wf,
    UploadScreen.pickAudio st (st, w) = (Return tt, (sf, wf)) /\
    UploadScreen.audioUri sf = Some savedUri /\
    UploadScreen.fileName sf = Some (asset_name asset) /\
    alerts_at_most_one w3 wf.
Proof.
  intros Hpick Hcanceled Hassets Hsize Hunload Hsave.
  assert (H : wp (UploadScreen.pickAudio st)
                (fun _ (sw : UploadScreen.State * World) =>
                   UploadScreen.audioUri (fst sw) = Some savedUri /\
                   UploadScreen.fileName (fst sw) = Some (asset_name asset) /\
                   alerts_at_most_one w3 (snd sw))
                (fun _ _ => False) (st, w)).
  { unfold UploadScreen.pickAudio. apply wp_try_catch, wp_bind, wp_liftW.
    apply (wp_of_run _ _ _ _ _ _ Hpick). cbn [fst snd]. rewrite Hcanceled.
    apply wp_bind.
    destruct (UploadScreen.sound st) as [s0|].
    - apply wp_bind, wp_liftW. apply (wp_of_run _ _ _ _ _ _ Hunload).
      unfold UploadScreen.setSound, UploadScreen.setIsPlaying.
      apply wp_bind, wp_setState, wp_setState. cbn [fst snd].
      rewrite Hassets. unfold UploadScreen.setFileName, UploadScreen.setAudioUri.
      apply wp_bind, wp_setState. cbn [fst snd]. rewrite Hsize.
      apply wp_try_catch, wp_bind, wp_liftW.
      apply (wp_of_run _ _ _ _ _ _ Hsave). cbn [fst snd].
      apply wp_bind, wp_setState. cbn [fst snd].
      apply wp_upload_loadAudio. intros s' w' Ha Hf _ _ Hal. usimpl. auto.
    - subst w2. apply wp_ret.
      rewrite Hassets. unfold UploadScreen.setFileName, UploadScreen.setAudioUri.
      apply wp_bind, wp_setState. cbn [fst snd]. rewrite Hsize.
      apply wp_try_catch, wp_bind, wp_liftW.
      apply (wp_of_run _ _ _ _ _ _ Hsave). cbn [fst snd].
      apply wp_bind, wp_setState. cbn [fst snd].
      apply wp_upload_loadAudio. intros s' w' Ha Hf _ _ Hal. usimpl. auto. }
  destruct (wp_returns _ _ _ H) as ([] & [sf wf] & Hrun & Hs).
  exists sf, wf. split; [exact Hrun|exact Hs].
Qed.

Lemma pickAudio_selects_witness :
  exists sf wf,
    UploadScreen.pickAudio UploadScreen.initialState
      (UploadScreen.initialState,
       set_picker
         (fun _ => [mkPick false [mkAsset "picked/new.mp3" "new.mp3" (Some 1000%N)]])
         (device ios {[ "picked/new.mp3" := song ]})) = (Return tt, (sf, wf)) /\
    UploadScreen.audioUri sf = Some "cache/new.mp3" /\
    UploadScreen.fileName sf = Some "new.mp3".
Proof.
  edestruct (pickAudio_selects UploadScreen.initialState
               (set_picker
                  (fun _ => [mkPick false
                               [mkAsset "picked/new.mp3" "new.mp3" (Some 1000%N)]])
                  (device ios {[ "picked/new.mp3" := song ]}))
               (snd (DocumentPicker.getDocumentAsync
                       (set_picker
                          (fun _ => [mkPick false
                                       [mkAsset "picked/new.mp3" "new.mp3"
                                          (Some 1000%N)]])
                          (device ios {[ "picked/new.mp3" := song ]}))))
               (snd (DocumentPicker.getDocumentAsync
                       (set_picker
                          (fun _ => [mkPick false
                                       [mkAsset "picked/new.mp3" "new.mp3"
                                          (Some 1000%N)]])
                          (device ios {[ "picked/new.mp3" := song ]}))))
               (snd (FileSystemUtils.saveAudioToCache "picked/new.mp3" "new.mp3"
                       (snd (DocumentPicker.getDocumentAsync
                               (set_picker
                                  (fun _ => [mkPick false
                                               [mkAsset "picked/new.mp3" "new.mp3"
                                                  (Some 1000%N)]])
                                  (device ios {[ "picked/new.mp3" := song ]}))))))
               (mkPick false [mkAsset "picked/new.mp3" "new.mp3" (Some 1000%N)])
               (mkAsset "picked/new.mp3" "new.mp3" (Some 1000%N)) []
               "cache/new.mp3")
    as (sf & wf & Hrun & Ha & Hf & _).
  - vm_compute. reflexivity.
  - reflexivity.
  - reflexivity.
  - reflexivity.
  - reflexivity.
  - vm_compute. reflexivity.
  - exists sf, wf. auto.
Defined.

(** A pick that cannot be saved drops the selection.  When the picker
    returns a choice that is not canceled, whose first asset is not too
    large, unloading the current sound does not reject, and
    [saveAudioToCache] throws, then [pickAudio] returns after logging and one
    alert "Invalid File", with [audioUri] and [fileName] both null and no
    sound: the audio that was selected before is no longer selected. *)
Theorem pickAudio_invalid (st : UploadScreen.State) (w w1 w2 w3 : World)
    (result : DocumentPickerResult) (asset : Asset) (others : list Asset)
    (e : JsError) :
  DocumentPicker.getDocumentAsync w = (Return result, w1) ->
  canceled result = false ->
  assets result = asset :: others ->
  UploadScreen.too_large asset = false ->
  match UploadScreen.sound st with
  | Some s => Audio.unloadAsync s w1 = (Return tt, w2)
  | None => w2 = w1
  end ->
  FileSystemUtils.saveAudioToCache (asset_uri asset) (asset_name asset) w2 =
    (Throw e, w3) ->
  UploadScreen.pickAudio st (st, w) =
    (Return tt,
     (UploadScreen.mkState None None None
        (match UploadScreen.sound st with
         | Some _ => false
         | None => UploadScreen.isPlaying st
         end)
        (UploadScreen.duration st) (UploadScreen.position st),
      set_trace
        (fun t => (t ++ [ConsoleError "Invalid audio file:";
                         AlertShown "Invalid File"
                           "Please select a valid audio file"])%list) w3)).
Proof.
  intros Hpick Hcanceled Hassets Hsize Hunload Hsave.
  unfold UploadScreen.pickAudio, try_catch, bind.
  unfold liftW at 1. cbn [fst snd]. rewrite Hpick, Hcanceled.
  destruct (UploadScreen.sound st) as [s|] eqn:Hsound.
  - unfold liftW at 1. cbn [fst snd]. rewrite Hunload.
    unfold UploadScreen.setSound, UploadScreen.setIsPlaying, setState.
    cbn [fst snd]. rewrite Hassets.
    unfold UploadScreen.setFileName, UploadScreen.setAudioUri, setState.
    cbn [fst snd]. rewrite Hsize.
    unfold liftW at 1. cbn [fst snd]. rewrite Hsave.
    cbn. rewrite set_trace_app. reflexivity.
  - subst w2. unfold ret at 1. rewrite Hassets.
    unfold UploadScreen.setFileName, UploadScreen.setAudioUri, setState.
    cbn [fst snd]. rewrite Hsize.
    unfold liftW at 1. cbn [fst snd]. rewrite Hsave.
    cbn. rewrite set_trace_app, Hsound. reflexivity.
Qed.

(** The file of the pick is gone from where the picker said it was: the
    selection of [upload_state] is dropped. *)
Lemma pickAudio_invalid_witness :
  exists wf,
    UploadScreen.pickAudio upload_state
      (upload_state,
       set_picker
         (fun _ => [mkPick false [mkAsset "picked/gone.mp3" "gone.mp3" None]])
         upload_world) =
      (Return tt, (UploadScreen.mkState None None None false 3 0, wf)) /\
    alerts_of (trace wf) = [("Invalid File", "Please select a valid audio file")].
Proof.
  eexists. split.
  - eapply (pickAudio_invalid upload_state
              (set_picker
                 (fun _ => [mkPick false [mkAsset "picked/gone.mp3" "gone.mp3" None]])
                 upload_world)
              _ _ _ _ (mkAsset "picked/gone.mp3" "gone.mp3" None) []).
    + vm_compute. reflexivity.
    + reflexivity.
    + reflexivity.
    + reflexivity.
    + vm_compute. reflexivity.
    + vm_compute. reflexivity.
  - vm_compute. reflexivity.
Defined.

(** ** app/editor.tsx: the original audio *)

(** [loadOriginalAudio] of the editor with a host that never fails on its
    own.  The sound that the screen held is unloaded first, whatever comes
    next.  When the player can decode what is at [uri], the screen gets the
    new sound at full volume and the duration in seconds, and no alert is
    shown.  Otherwise one alert is shown and the state is as it was: the
    screen keeps the handle of the sound that was just unloaded.  No file is
    touched. *)
Theorem loadOriginalAudio_spec (uri : string) (st s : EditorScreen.State)
    (w : World) :
  faults w = [] ->
  exists wf,
    files wf = files w /\
    (forall old, EditorScreen.originalSound st = Some old ->
                 old <> nextSound w ->
                 sounds wf !! old = Some Audio.unloaded) /\
    match loadable w (Some uri) with
    | Some d =>
        EditorScreen.loadOriginalAudio st uri (s, w) =
          (Return tt,
           (EditorScreen.mkState
              (EditorScreen.isProcessing s) (EditorScreen.isProcessed s)
              (EditorScreen.vocalTrack s) (EditorScreen.instrumentalTrack s)
              (EditorScreen.vocalVolume s) (EditorScreen.instrumentalVolume s)
              (Some (nextSound w)) (EditorScreen.vocalSound s)
              (EditorScreen.instrumentalSound s) (EditorScreen.isPlaying s)
              (EditorScreen.playbackMode s)
              (EditorScreen.seconds_of (Some d)) (EditorScreen.position s),
            wf)) /\
        sounds wf !! nextSound w = Some (mkSoundStatus true false 0 (Some d) 1) /\
        alerts_of (trace wf) = alerts_of (trace w)
    | None =>
        EditorScreen.loadOriginalAudio st uri (s, w) = (Return tt, (s, wf)) /\
        alerts_of (trace wf) =
          (alerts_of (trace w) ++ [("Error", "Failed to load audio file.")])%list
    end.
Proof.
  intros Hcalm. unfold loadable.
  destruct (files w !! uri) as [content|] eqn:Hfile;
    [destruct (decodeDuration w content) as [d|] eqn:Hdec|];
    destruct (EditorScreen.originalSound st) as [old|] eqn:Hold;
    unfold EditorScreen.loadOriginalAudio, try_catch, bind, liftW,
      Audio.unloadAsync, Audio.createAsync, Audio.getStatusAsync, bind, get,
      emit, modify, ret, throw, console_error, Alert_alert, emit, modify,
      EditorScreen.setOriginalSound, EditorScreen.setDuration, setState;
    rewrite Hold;
    repeat (cbn [fst snd]; wsimpl;
            first [ rewrite hostcall_calm by (wsimpl; exact Hcalm)
                  | rewrite Hfile | rewrite Hdec | rewrite lookup_insert_eq ]);
    cbn; eexists;
    (split; [|split; [|first [split; [reflexivity|split]
                             |split; [reflexivity|]]]]); wsimpl;
    try reflexivity; try (intros old' Heq; discriminate Heq);
    try (intros old' Heq Hne; inversion Heq; subst old');
    try apply lookup_insert_eq;
    try (rewrite lookup_insert_ne by congruence; apply lookup_insert_eq);
    try quiet.
Qed.

(** The editor holds sound 0 and is asked to load a file that is not there:
    sound 0 is unloaded, and the editor still holds it. *)
Lemma loadOriginalAudio_spec_witness :
  exists wf,
    EditorScreen.loadOriginalAudio
      (EditorScreen.mkState false false None None 1 1 (Some 0%nat) None None
         false EditorScreen.original 0 0)
      "gone.mp3"
      (EditorScreen.mkState false false None None 1 1 (Some 0%nat) None None
         false EditorScreen.original 0 0, upload_world) =
      (Return tt,
       (EditorScreen.mkState false false None None 1 1 (Some 0%nat) None None
          false EditorScreen.original 0 0, wf)) /\
    sounds wf !! 0%nat = Some Audio.unloaded /\
    alerts_of (trace wf) = [("Error", "Failed to load audio file.")].
Proof.
  destruct (loadOriginalAudio_spec "gone.mp3"
              (EditorScreen.mkState false false None None 1 1 (Some 0%nat)
                 None None false EditorScreen.original 0 0)
              (EditorScreen.mkState false false None None 1 1 (Some 0%nat)
                 None None false EditorScreen.original 0 0)
              upload_world eq_refl)
    as (wf & _ & Hold & H).
  exists wf.
  change (loadable upload_world (Some "gone.mp3")) with (@None N) in H.
  destruct H as (Hrun & Hal).
  split; [exact Hrun|split; [|exact Hal]].
  apply Hold; [reflexivity|]. vm_compute. lia.
Defined.

(** ** components/AudioWaveform.tsx: the bars and the audio *)

(** The waveform has [BAR_COUNT] bars when there is audio or a recording
    runs and no bar otherwise; and whatever [Math.random] returns, the first
    bar has the minimum height 5, since the bell curve is 0 at index 0. *)
Theorem onAudioChange_bars (audioUri : option string) (isRecording : bool)
    (Math_random : nat -> R) :
  length (AudioWaveform.onAudioChange audioUri isRecording Math_random) =
    (if truthy audioUri || isRecording then AudioWaveform.BAR_COUNT else 0%nat) /\
  head (AudioWaveform.onAudioChange audioUri isRecording Math_random) =
    (if truthy audioUri || isRecording then Some 5%R else None).
Proof.
  unfold AudioWaveform.onAudioChange, AudioWaveform.generateRandomBars.
  destruct (truthy audioUri || isRecording); [|split; reflexivity].
  rewrite push_loop. cbn [app]. split.
  - rewrite length_map, length_seq. reflexivity.
  - change (seq 0 AudioWaveform.BAR_COUNT) with (0%nat :: seq 1 49).
    cbn [List.map head]. f_equal. unfold AudioWaveform.bar.
    replace (INR 0 / INR AudioWaveform.BAR_COUNT * PI)%R with 0%R
      by (cbn [INR]; unfold Rdiv; ring).
    rewrite sin_0, Rmult_0_r. apply Rmax_left. lra.
Qed.
